(** * Moltchain: the decision loop of the autonomous deployment agent

    A shallow embedding of the policy core of the repository, one module per
    source file:
    - [Agent]        daemon/agent.ts          contract archetype selection
    - [Keywords]                              keywords in either case
    - [Deployments]  memory/deployments.ts    the deployment ledger and its file
    - [Shape]                                 stores by what the code can do with them
    - [Detector]     signals/detector.ts      the deployment gate [canDeploy]
    - [Farcaster]    social/farcaster.ts      posting a cast
    - [Tracker]      engagement/tracker.ts    engagement score and recommendation
    - [Automation]   sunset/automation.ts     the sunset processor
    - [Deployer]     deployer/deployer.ts     recording a deployment
    - [Onchain]      engagement/tracker.ts    transfer and holder counts
    - [SunsetRun]    sunset/automation.ts     the sunset run over all candidates
    - [Daemon]       daemon/agent.ts          the loop: iteration, checks, status
    - [Signals]      signals/detector.ts      detecting a narrative
    - [Loop]         daemon/agent.ts          the passes of the loop

    External collaborators (file system, clock, chain RPC, social API) are
    inputs of the embedded functions: every [Date.now()] read is a parameter,
    the backing file is an explicit value, and a call that can raise returns
    an [Outcome].

    Numbers. A JavaScript number is an IEEE-754 binary64 value and is modelled
    by Rocq's primitive [float], whose operations are the same correctly
    rounded binary64 operations. Millisecond timestamps, balances in wei and
    array lengths are integers in the source (below 2^53, or bigint) and are
    modelled in [Z]: on them the subtraction, comparison and [Math.floor] of
    a quotient that the source performs are exact. *)

From Stdlib Require Import ZArith List String Ascii Bool Lia.
From Stdlib Require Import Numbers.DecimalString.
From Stdlib Require Import Floats Uint63.
Import ListNotations.

Local Open Scope string_scope.
Local Open Scope Z_scope.

(** * Part I: the embedding *)

(** ** JavaScript strings

    A string is its sequence of UTF-8 bytes. The keywords searched for are
    ASCII, and no byte of a multi-byte UTF-8 sequence is an ASCII byte, so
    substring search on bytes agrees with search on code units. *)
Module JsString.

(** [String.prototype.toLowerCase] on the ASCII range: A-Z to a-z. *)
Definition lower_ascii (c : ascii) : ascii :=
  let n := nat_of_ascii c in
  if (Nat.leb 65 n && Nat.leb n 90)%bool then ascii_of_nat (n + 32) else c.

Fixpoint toLowerCase (s : string) : string :=
  match s with
  | EmptyString => EmptyString
  | String c rest => String (lower_ascii c) (toLowerCase rest)
  end.

(** [s.includes(needle)]: [needle] occurs in [s] as a contiguous run. *)
Fixpoint includes (s needle : string) : bool :=
  if String.prefix needle s then true
  else match s with
       | EmptyString => false
       | String _ rest => includes rest needle
       end.

(** A case-insensitive occurrence of the (lower-case) keyword [kw] in
    [text]: some contiguous part of [text] lower-cases to [kw]. *)
Definition mentions (text kw : string) : Prop :=
  exists before part after,
    text = before ++ part ++ after /\ toLowerCase part = kw.

(** Rendering of an integral number in a template literal. *)
Definition decimal (z : Z) : string :=
  NilEmpty.string_of_int (Z.to_int z).

End JsString.

(** ** Exceptions *)
Module Js.

Inductive Error :=
| SyntaxError                 (* JSON.parse on malformed text *)
| IOError                     (* a failing file-system call *)
| TypeError                   (* a property access on a value without it *)
| Failure (message : string). (* throw new Error(message) *)

Inductive Outcome (A : Type) :=
| Returns (a : A)
| Throws (e : Error).
Arguments Returns {A} a.
Arguments Throws {A} e.

Definition bind {A B : Type} (c : Outcome A) (k : A -> Outcome B) : Outcome B :=
  match c with
  | Returns a => k a
  | Throws e => Throws e
  end.

(** [try { body } catch (error) { handler }] *)
Definition try_catch {A : Type} (body : Outcome A) (handler : Error -> Outcome A)
  : Outcome A :=
  match body with
  | Returns a => Returns a
  | Throws e => handler e
  end.

Notation "'let*' x ':=' c 'in' k" := (bind c (fun x => k))
  (at level 10, x name, c at level 100, k at level 200).

(** [array.findIndex(p)], [None] for -1. *)
Fixpoint findIndex {A : Type} (p : A -> bool) (l : list A) : option nat :=
  match l with
  | [] => None
  | x :: rest => if p x then Some O else option_map S (findIndex p rest)
  end.

(** [array[i] = g(array[i])] for an index within bounds. *)
Fixpoint update_at {A : Type} (i : nat) (g : A -> A) (l : list A) : list A :=
  match l, i with
  | [], _ => []
  | x :: rest, O => g x :: rest
  | x :: rest, S j => x :: update_at j g rest
  end.

End Js.

(** ** JavaScript numbers (IEEE-754 binary64) *)
Module JsNumber.

Local Open Scope float_scope.

(** The number whose value is the integer [z]: the binary64 value nearest
    to [z], ties to even (exact below 2^53), an infinity beyond the largest
    finite number. *)
Definition number_of_Z (z : Z) : float :=
  SF2Prim (SpecFloat.binary_normalize prec emax z 0 false).

(** [Math.max(a, b)]: NaN if either is NaN; +0 is larger than -0. *)
Definition Math_max (a b : float) : float :=
  if (is_nan a || is_nan b)%bool then nan
  else if a <? b then b
  else if b <? a then a
  else if get_sign a then b else a.

(** [Math.min(a, b)]: NaN if either is NaN; -0 is smaller than +0. *)
Definition Math_min (a b : float) : float :=
  if (is_nan a || is_nan b)%bool then nan
  else if a <? b then a
  else if b <? a then b
  else if get_sign a then a else b.

(** The integer [floor(x + 1/2)] for the finite value [x = (-1)^s m 2^e]. *)
Definition round_half_up (s : bool) (m : positive) (e : Z) : Z :=
  let sm := if s then Z.neg m else Z.pos m in
  if (0 <=? e)%Z then (sm * 2 ^ e)%Z
  else ((2 * sm + 2 ^ (- e)) / 2 ^ (1 - e))%Z.

(** [Math.round(x)]: NaN, the infinities and the zeros are returned as they
    are; otherwise the integral number closest to [x], the one closer to
    +infinity in a tie, and -0 for [-0.5 <= x < 0]. *)
Definition Math_round (x : float) : float :=
  match Prim2SF x with
  | S754_finite s m e =>
      let n := round_half_up s m e in
      if (n =? 0)%Z then (if s then neg_zero else zero) else number_of_Z n
  | _ => x
  end.

(** The integer value of an integral number (truncation otherwise; 0 for
    NaN and the infinities). *)
Definition Z_of_number (x : float) : Z :=
  match Prim2SF x with
  | S754_finite s m e =>
      let v := if (0 <=? e)%Z then (Z.pos m * 2 ^ e)%Z
               else (Z.pos m / 2 ^ (- e))%Z in
      if s then (- v)%Z else v
  | _ => 0%Z
  end.

End JsNumber.

(** ** daemon/agent.ts: contract type selection *)
Module Agent.
Import JsString.

Inductive ContractType := erc20 | erc1155 | vote | registry.

Definition selectContractType (narrative : string) : ContractType :=
  let lowerNarrative := toLowerCase narrative in
  if (includes lowerNarrative "vote" || includes lowerNarrative "decide"
      || includes lowerNarrative "poll")%bool then vote
  else if (includes lowerNarrative "registry" || includes lowerNarrative "list"
      || includes lowerNarrative "catalog")%bool then registry
  else if (includes lowerNarrative "nft" || includes lowerNarrative "collection"
      || includes lowerNarrative "badge")%bool then erc1155
  else erc20.

(** The three keyword groups of the specification, in priority order. *)
Definition vote_words (t : string) : Prop :=
  mentions t "vote" \/ mentions t "decide" \/ mentions t "poll".
Definition registry_words (t : string) : Prop :=
  mentions t "registry" \/ mentions t "list" \/ mentions t "catalog".
Definition token_words (t : string) : Prop :=
  mentions t "nft" \/ mentions t "collection" \/ mentions t "badge".

End Agent.

(** ** Keywords, whatever their case

    The specification's "case-insensitive substring match", letter by
    letter and without reference to [toLowerCase]. *)
Module Keywords.

(** The capital form of a small ASCII letter; other characters have none. *)
Definition capital (k : ascii) : option ascii :=
  let n := nat_of_ascii k in
  if (Nat.leb 97 n && Nat.leb n 122)%bool then Some (ascii_of_nat (n - 32))
  else None.

(** [c] is the character [k] of a keyword, small or capital. *)
Definition either_case (k c : ascii) : bool :=
  (Ascii.eqb c k
   || match capital k with Some K => Ascii.eqb c K | None => false end)%bool.

(** [part] spells the keyword [kw], each letter small or capital. *)
Fixpoint spells (kw part : string) : bool :=
  match kw, part with
  | EmptyString, EmptyString => true
  | String k kw', String c part' => (either_case k c && spells kw' part')%bool
  | _, _ => false
  end.

(** Some contiguous part of [text] spells [kw]. *)
Definition occurs (text kw : string) : Prop :=
  exists before part after,
    text = before ++ part ++ after /\ spells kw part = true.

(** No character of the keyword is a capital letter. *)
Fixpoint small (kw : string) : bool :=
  match kw with
  | EmptyString => true
  | String k rest =>
      (negb (Nat.leb 65 (nat_of_ascii k) && Nat.leb (nat_of_ascii k) 90)
       && small rest)%bool
  end.

(** The three keyword groups of the specification, in priority order. *)
Definition voting (t : string) : Prop :=
  occurs t "vote" \/ occurs t "decide" \/ occurs t "poll".
Definition listing (t : string) : Prop :=
  occurs t "registry" \/ occurs t "list" \/ occurs t "catalog".
Definition collecting (t : string) : Prop :=
  occurs t "nft" \/ occurs t "collection" \/ occurs t "badge".

End Keywords.

(** ** memory/deployments.ts: the deployment ledger *)
Module Deployments.
Import Js.

(** The string literals ['active' | 'sunset']. *)
Inductive Status := StatusActive | StatusSunset.

Record Engagement := {
  transactions : Z;
  uniqueUsers : Z;
  lastActivity : Z }.

(** [interface DeploymentRecord]; an optional field is an [option], absent
    when [None]. The free-form [metadata] field, which no operation reads or
    writes, is left out. *)
Record DeploymentRecord := {
  name : string;
  symbol : option string;
  address : string;
  transactionHash : option string;
  txHash : option string;
  explorerUrl : option string;
  txExplorerUrl : option string;
  chainId : string;
  timestamp : Z;
  reason : string;
  status : option Status;
  type : option string;
  engagement : option Engagement;
  sunset : option bool }.

Record DeploymentMemory := {
  version : Z;
  lastUpdated : Z;
  deployments : list DeploymentRecord }.

(** A JSON value that is not a ledger. *)
#[warnings="-register-all"]
Inductive Json :=
| JNull
| JBool (b : bool)
| JNumber (n : Z)
| JString (s : string)
| JArray (items : list Json)
| JObject (fields : list (string * Json)).

(** The text of the file [memory/deployments.json], by what [JSON.parse]
    makes of it: a syntax error, the ledger that [JSON.stringify] wrote, or
    any other JSON value (one without a [deployments] array of records).
    The embedding follows the code on the values that have no [deployments]
    member at all ([Shape.lacksDeployments], below); a [deployments] member
    of another shape is outside it. *)
Inductive FileContent :=
| Malformed (text : string)
| LedgerText (m : DeploymentMemory)
| OtherJson (v : Json).

(** The backing store: no file, a path that cannot be read (it exists, and
    [readFileSync] raises), or a file with its content. *)
Inductive MemoryFile :=
| Missing
| Unreadable
| Stored (c : FileContent).

(** What [JSON.parse(content) as DeploymentMemory] evaluates to: the cast is
    unchecked, so any parsed value is returned under the ledger's type. *)
Inductive Parsed :=
| Ledger (m : DeploymentMemory)
| NotLedger (v : Json).

Definition existsSync (f : MemoryFile) : bool :=
  match f with Missing => false | _ => true end.

Definition readFileSync (f : MemoryFile) : Outcome FileContent :=
  match f with Stored c => Returns c | _ => Throws IOError end.

Definition JSON_parse (c : FileContent) : Outcome Parsed :=
  match c with
  | Malformed _ => Throws SyntaxError
  | LedgerText m => Returns (Ledger m)
  | OtherJson v => Returns (NotLedger v)
  end.

Definition emptyMemory (now : Z) : DeploymentMemory :=
  {| version := 1; lastUpdated := now; deployments := [] |}.

Definition loadMemory (now : Z) (f : MemoryFile) : Outcome Parsed :=
  if negb (existsSync f) then Returns (Ledger (emptyMemory now))
  else
    try_catch
      (let* content := readFileSync f in JSON_parse content)
      (fun _ => Returns (Ledger (emptyMemory now))).

(** Reading [memory.deployments] and using it (an index, an iteration, an
    array method): on a value without that member the use raises. *)
Definition ledger_of (p : Parsed) : Outcome DeploymentMemory :=
  match p with
  | Ledger m => Returns m
  | NotLedger _ => Throws TypeError
  end.

(** [saveMemory]: stamps [lastUpdated] and replaces the whole file; the
    write itself is taken to succeed. *)
Definition saveMemory (now : Z) (memory : DeploymentMemory) : MemoryFile :=
  Stored (LedgerText {| version := version memory;
                        lastUpdated := now;
                        deployments := deployments memory |}).

Definition unshift (d : DeploymentRecord) (memory : DeploymentMemory)
  : DeploymentMemory :=
  {| version := version memory;
     lastUpdated := lastUpdated memory;
     deployments := d :: deployments memory |}.

Definition saveDeployment (t_load t_save : Z) (f : MemoryFile)
  (deployment : DeploymentRecord) : Outcome MemoryFile :=
  let* loaded := loadMemory t_load f in
  let* memory := ledger_of loaded in
  Returns (saveMemory t_save (unshift deployment memory)).

Definition getDeploymentsByChain (now : Z) (f : MemoryFile) (chain : string)
  : Outcome (list DeploymentRecord) :=
  let* loaded := loadMemory now f in
  let* memory := ledger_of loaded in
  Returns (filter (fun d => String.eqb (chainId d) chain) (deployments memory)).

Definition getLatestDeployment (now : Z) (f : MemoryFile)
  : Outcome (option DeploymentRecord) :=
  let* loaded := loadMemory now f in
  let* memory := ledger_of loaded in
  Returns (hd_error (deployments memory)).

(** Truthiness of the optional legacy flag [d.sunset]. *)
Definition flagged (d : DeploymentRecord) : bool :=
  match sunset d with Some true => true | _ => false end.

Definition getActiveDeployments (now : Z) (f : MemoryFile)
  : Outcome (list DeploymentRecord) :=
  let* loaded := loadMemory now f in
  let* memory := ledger_of loaded in
  Returns (filter (fun d => negb (flagged d)) (deployments memory)).

Definition set_sunset (d : DeploymentRecord) : DeploymentRecord :=
  {| name := name d; symbol := symbol d; address := address d;
     transactionHash := transactionHash d; txHash := txHash d;
     explorerUrl := explorerUrl d; txExplorerUrl := txExplorerUrl d;
     chainId := chainId d; timestamp := timestamp d; reason := reason d;
     status := status d; type := type d; engagement := engagement d;
     sunset := Some true |}.

Definition with_deployments (memory : DeploymentMemory)
  (l : list DeploymentRecord) : DeploymentMemory :=
  {| version := version memory; lastUpdated := lastUpdated memory;
     deployments := l |}.

(** The legacy retirement: sets the boolean flag of the first record with
    this address, and saves; nothing is written when there is none. *)
Definition sunsetDeployment (t_load t_save : Z) (f : MemoryFile) (addr : string)
  : Outcome MemoryFile :=
  let* loaded := loadMemory t_load f in
  let* memory := ledger_of loaded in
  match findIndex (fun d => String.eqb (address d) addr) (deployments memory) with
  | Some i =>
      Returns (saveMemory t_save
                 (with_deployments memory (update_at i set_sunset (deployments memory))))
  | None => Returns f
  end.

(** [byChain[d.chainId] = (byChain[d.chainId] || 0) + 1] on an object whose
    keys keep their insertion order, for keys that are no names inherited
    from [Object.prototype] ([Shape.inherited], below). *)
Fixpoint bump (k : string) (l : list (string * nat)) : list (string * nat) :=
  match l with
  | [] => [(k, 1%nat)]
  | (k', n) :: rest =>
      if String.eqb k k' then (k', S n) :: rest else (k', n) :: bump k rest
  end.

Module Stats.
Record t := {
  total : nat;
  active : nat;
  sunset : nat;
  byChain : list (string * nat) }.
End Stats.

Definition getDeploymentStats (now : Z) (f : MemoryFile) : Outcome Stats.t :=
  let* loaded := loadMemory now f in
  let* memory := ledger_of loaded in
  Returns {|
    Stats.total := List.length (deployments memory);
    Stats.active := List.length (filter (fun d => negb (flagged d)) (deployments memory));
    Stats.sunset := List.length (filter flagged (deployments memory));
    Stats.byChain :=
      fold_left (fun acc d => bump (chainId d) acc) (deployments memory) [] |}.

End Deployments.

(** ** Stores by what the operations can do with them *)
Module Shape.
Import Deployments.

Definition isNull (v : Json) : bool :=
  match v with JNull => true | _ => false end.

(** [memory.deployments] is [undefined] or [null], or reading it raises:
    the parsed value is [null], a number, a string, a boolean, an array, or
    an object in which every member named [deployments] is [null]. On such
    a value each use the code makes of [memory.deployments] (an index, an
    iteration, an array method) raises a TypeError. *)
Definition lacksDeployments (v : Json) : bool :=
  match v with
  | JObject fields =>
      forallb (fun member => negb (String.eqb (fst member) "deployments")
                             || isNull (snd member))%bool fields
  | _ => true
  end.

(** A store that the operations read as the embedding says: it holds or
    yields a ledger, or holds JSON without a [deployments] member. What is
    left out is JSON with a [deployments] member of another shape (an array
    of other values, a string, an object), which some operations get
    through. *)
Definition plain (f : MemoryFile) : bool :=
  match f with
  | Stored (OtherJson v) => lacksDeployments v
  | _ => true
  end.

(** A store that [saveMemory] can replace after [loadMemory] has given a
    ledger: no file yet, a file whose text is not JSON, or a ledger. (A path
    that cannot be read may not take a write either.) *)
Definition ledgerFile (f : MemoryFile) : bool :=
  match f with
  | Missing => true
  | Stored (Malformed _) => true
  | Stored (LedgerText _) => true
  | _ => false
  end.

(** The names every plain object inherits from [Object.prototype]: under
    such a key [byChain[key] || 0] finds the inherited member, and no count
    is kept. *)
Definition inheritedNames : list string :=
  [ "constructor"; "__defineGetter__"; "__defineSetter__"; "hasOwnProperty";
    "__lookupGetter__"; "__lookupSetter__"; "isPrototypeOf";
    "propertyIsEnumerable"; "toString"; "valueOf"; "__proto__";
    "toLocaleString" ].

Definition inherited (key : string) : bool :=
  existsb (String.eqb key) inheritedNames.

End Shape.

(** ** signals/detector.ts: the deployment gate *)
Module Detector.
Import Js JsString Deployments.

Record Verdict := {
  allowed : bool;
  reason : string }.

(** [parseEther('0.005')], in wei. *)
Definition MIN_BALANCE_WEI : Z := 5 * 10 ^ 15.

(** [wallet.hasSufficientBalance(minBalance)]: [balance >= required]. *)
Definition hasSufficientBalance (balance required : Z) : bool :=
  required <=? balance.

(** [canDeploy], given the balance the wallet query returns, the backing
    file, and the three clock reads: [t_load] in [loadMemory], [t_hour] for
    [hourAgo] and [t_minutes] for [minutesAgo]. *)
Definition canDeploy (balance : Z) (f : MemoryFile) (t_load t_hour t_minutes : Z)
  : Outcome Verdict :=
  let hasFunds := hasSufficientBalance balance MIN_BALANCE_WEI in
  if negb hasFunds then
    Returns {| allowed := false;
               reason := "Insufficient wallet balance (need at least 0.005 ETH)" |}
  else
    let* loaded := loadMemory t_load f in
    let* memory := ledger_of loaded in
    let ready := Returns {| allowed := true; reason := "Ready to deploy" |} in
    match deployments memory with
    | lastDeployment :: _ =>
        let hourAgo := t_hour - 60 * 60 * 1000 in
        if hourAgo <? timestamp lastDeployment then
          let minutesAgo := (t_minutes - timestamp lastDeployment) / 60000 in
          Returns {| allowed := false;
                     reason := "Rate limited: Last deployment was "
                               ++ decimal minutesAgo
                               ++ " minutes ago (wait 60 min)" |}
        else ready
    | [] => ready
    end.

End Detector.

(** ** social/farcaster.ts: posting a cast *)
Module Farcaster.
Import Js.

Record CastResult := {
  success : bool;
  castHash : option string;
  error : option string }.

(** What the request to the social API does: the fetch itself raises, the
    response is not ok, or the cast is accepted under a hash. *)
Inductive Network :=
| FetchFails (message : string)
| HttpError (message : string)
| Accepted (hash : string).

Definition errorMessage (e : Error) : string :=
  match e with
  | Failure message => message
  | _ => "Unknown error"
  end.

(** [postCast]: every failure is caught and reported in the result. *)
Definition postCast (signerConfigured : bool) (net : Network) (text : string)
  : Outcome CastResult :=
  if negb signerConfigured then
    Returns {| success := false; castHash := None;
               error := Some "FARCASTER_SIGNER_UUID not configured" |}
  else
    try_catch
      (match net with
       | FetchFails message => Throws (Failure message)
       | HttpError message => Throws (Failure ("Neynar API error: " ++ message))
       | Accepted hash =>
           Returns {| success := true; castHash := Some hash; error := None |}
       end)
      (fun e => Returns {| success := false; castHash := None;
                           error := Some (errorMessage e) |}).

(** The text of the sunset cast (pictographs left out). *)
Definition sunsetText (tokenName reason : string) : string :=
  "Sunsetting " ++ tokenName ++ " on Base. Reason: " ++ reason
  ++ " Learning and iterating... #Moltchain #AI".

Definition announceSunset (signerConfigured : bool) (net : Network)
  (tokenName chainId reason : string) : Outcome CastResult :=
  postCast signerConfigured net (sunsetText tokenName reason).

End Farcaster.

(** ** engagement/tracker.ts: engagement score and recommendation *)
Module Tracker.
Set Warnings "-inexact-float".
Import Js JsNumber Deployments.

Local Open Scope float_scope.

Inductive Recommendation := keep | sunset | promote.

(** [interface EngagementMetrics]. The counts are array lengths and a set
    size; the score is the result of [Math.round], stored by its integer
    value. *)
Record EngagementMetrics := {
  address : string;
  name : string;
  transferCount : Z;
  uniqueHolders : Z;
  engagementScore : Z;
  isPerforming : bool;
  recommendation : Recommendation;
  checkedAt : Z }.

Definition calculateEngagementScore
  (transferCount uniqueHolders socialMentions daysSinceDeployment : float)
  : float :=
  let transferWeight := 0.4 in
  let holderWeight := 0.3 in
  let socialWeight := 0.3 in
  let expectedDaily_transfers := 10 in
  let expectedDaily_holders := 5 in
  let expectedDaily_mentions := 3 in
  let days := Math_max daysSinceDeployment 1 in
  let normalizedTransfers :=
    Math_min (transferCount / (expectedDaily_transfers * days)) 1 in
  let normalizedHolders :=
    Math_min (uniqueHolders / (expectedDaily_holders * days)) 1 in
  let normalizedSocial :=
    Math_min (socialMentions / (expectedDaily_mentions * days)) 1 in
  let score :=
    (normalizedTransfers * transferWeight
     + normalizedHolders * holderWeight
     + normalizedSocial * socialWeight) * 100 in
  Math_round score.

(** The score as the specification words it:
    round(100 x (0.4 min(t/(10 max(d,1)), 1) + 0.3 min(h/(5 max(d,1)), 1)
                 + 0.3 min(s/(3 max(d,1)), 1))). *)
Definition spec_score (t h s d : float) : float :=
  Math_round
    (100 * (0.4 * Math_min (t / (10 * Math_max d 1)) 1
            + 0.3 * Math_min (h / (5 * Math_max d 1)) 1
            + 0.3 * Math_min (s / (3 * Math_max d 1)) 1)).

(** The threshold rule of [analyzeEngagement]: the recommendation and the
    [isPerforming] flag, before the grace-period override. *)
Definition thresholds (engagementScore : float) : Recommendation * bool :=
  if 50 <=? engagementScore then (promote, true)
  else if 20 <=? engagementScore then (keep, true)
  else (sunset, false).

Definition is_sunset (r : Recommendation) : bool :=
  match r with sunset => true | _ => false end.

(** "Don't sunset contracts less than 24 hours old". *)
Definition graceOverride (daysSinceDeployment : float) (r : Recommendation)
  : Recommendation :=
  if ((daysSinceDeployment <? 1) && is_sunset r)%bool then keep else r.

(** What the outside world answers while one deployment is analysed: the
    three fetched counts and the two clock reads. *)
Record Probe := {
  fetchedTransfers : Z;
  fetchedHolders : Z;
  fetchedMentions : Z;
  clockAtScore : Z;
  clockAtReturn : Z }.

Definition daysSince (now : Z) (deployment : DeploymentRecord) : float :=
  number_of_Z (now - timestamp deployment) / (1000 * 60 * 60 * 24).

Definition analyzeEngagement (deployment : DeploymentRecord) (p : Probe)
  : EngagementMetrics :=
  let transferCount := fetchedTransfers p in
  let uniqueHolders := fetchedHolders p in
  let socialMentions := fetchedMentions p in
  let daysSinceDeployment := daysSince (clockAtScore p) deployment in
  let engagementScore :=
    calculateEngagementScore (number_of_Z transferCount)
      (number_of_Z uniqueHolders) (number_of_Z socialMentions)
      daysSinceDeployment in
  let '(recommendation, isPerforming) := thresholds engagementScore in
  let recommendation := graceOverride daysSinceDeployment recommendation in
  {| address := Deployments.address deployment;
     name := Deployments.name deployment;
     transferCount := transferCount;
     uniqueHolders := uniqueHolders;
     engagementScore := Z_of_number engagementScore;
     isPerforming := isPerforming;
     recommendation := recommendation;
     checkedAt := clockAtReturn p |}.

(** [d.status === 'active'] *)
Definition statusIs (s : Status) (d : DeploymentRecord) : bool :=
  match status d, s with
  | Some StatusActive, StatusActive => true
  | Some StatusSunset, StatusSunset => true
  | _, _ => false
  end.

(** The records [analyzeAllDeployments] selects for analysis. *)
Definition activeDeployments (memory : DeploymentMemory) : list DeploymentRecord :=
  filter (statusIs StatusActive) (deployments memory).

Definition analyzeAllDeployments (observe : DeploymentRecord -> Probe)
  (t_load : Z) (f : MemoryFile) : Outcome (list EngagementMetrics) :=
  let* loaded := loadMemory t_load f in
  let* memory := ledger_of loaded in
  Returns (map (fun d => analyzeEngagement d (observe d)) (activeDeployments memory)).

Definition getSunsetCandidates (observe : DeploymentRecord -> Probe)
  (t_load : Z) (f : MemoryFile) : Outcome (list EngagementMetrics) :=
  let* allMetrics := analyzeAllDeployments observe t_load f in
  Returns (filter (fun m => is_sunset (recommendation m)) allMetrics).

End Tracker.

(** ** sunset/automation.ts: the sunset processor *)
Module Automation.
Import Js JsString Deployments.

Record SunsetResult := {
  address : string;
  name : string;
  reason : string;
  sunsetAt : Z;
  announced : bool }.

(** The external effects of one run, in the order they happen. *)
Inductive Effect :=
| WriteMemory (f : MemoryFile)
| AnnounceSunset (tokenName reason : string).

Record Run := {
  file_after : MemoryFile;
  effects : list Effect;
  result : SunsetResult }.

Definition sunsetReason (metrics : Tracker.EngagementMetrics) : string :=
  "Low engagement: " ++ decimal (Tracker.transferCount metrics)
  ++ " transfers, " ++ decimal (Tracker.uniqueHolders metrics)
  ++ " holders, score: " ++ decimal (Tracker.engagementScore metrics)
  ++ "/100".

(** [d.status = 'sunset'; d.reason = reason] *)
Definition mark (why : string) (d : DeploymentRecord) : DeploymentRecord :=
  {| Deployments.name := Deployments.name d; symbol := symbol d;
     Deployments.address := Deployments.address d;
     transactionHash := transactionHash d; txHash := txHash d;
     explorerUrl := explorerUrl d; txExplorerUrl := txExplorerUrl d;
     chainId := chainId d; timestamp := timestamp d;
     Deployments.reason := why;
     status := Some StatusSunset; type := type d;
     engagement := engagement d; sunset := sunset d |}.

(** [processSunset] over an announce call given by its outcome. Clock reads:
    [t_load] in [loadMemory], [t_save] in [saveMemory], [t_done] for
    [sunsetAt]. *)
Definition processSunsetWith
  (announce : string -> string -> string -> Outcome Farcaster.CastResult)
  (deployment : DeploymentRecord) (metrics : Tracker.EngagementMetrics)
  (f : MemoryFile) (t_load t_save t_done : Z) : Outcome Run :=
  let why := sunsetReason metrics in
  (* Step 1: update memory to mark as sunset *)
  let* loaded := loadMemory t_load f in
  let* memory := ledger_of loaded in
  let deploymentIndex :=
    findIndex (fun d => String.eqb (Deployments.address d)
                                   (Deployments.address deployment))
              (deployments memory) in
  let '(f1, written) :=
    match deploymentIndex with
    | Some i =>
        let f' := saveMemory t_save
                    (with_deployments memory
                       (update_at i (mark why) (deployments memory))) in
        (f', [WriteMemory f'])
    | None => (f, [])
    end in
  (* Step 2: announce *)
  let tokenName := Deployments.name deployment in
  let announced :=
    match announce tokenName "base" why with
    | Returns _ => true
    | Throws _ => false
    end in
  Returns {|
    file_after := f1;
    effects := written ++ [AnnounceSunset tokenName why];
    result := {| address := Deployments.address deployment;
                 name := tokenName;
                 reason := why;
                 sunsetAt := t_done;
                 announced := announced |} |}.

(** [processSunset] with the announce call of social/farcaster.ts. *)
Definition processSunset (signerConfigured : bool) (net : Farcaster.Network)
  (deployment : DeploymentRecord) (metrics : Tracker.EngagementMetrics)
  (f : MemoryFile) (t_load t_save t_done : Z) : Outcome Run :=
  processSunsetWith (Farcaster.announceSunset signerConfigured net)
    deployment metrics f t_load t_save t_done.

Module SunsetStats.
Record t := {
  total : nat;
  thisWeek : nat;
  thisMonth : nat }.
End SunsetStats.

Definition getSunsetStats (t_load now : Z) (f : MemoryFile)
  : Outcome SunsetStats.t :=
  let* loaded := loadMemory t_load f in
  let* memory := ledger_of loaded in
  let sunsetDeployments :=
    filter (Tracker.statusIs StatusSunset) (deployments memory) in
  let weekAgo := now - 7 * 24 * 60 * 60 * 1000 in
  let monthAgo := now - 30 * 24 * 60 * 60 * 1000 in
  Returns {|
    SunsetStats.total := List.length sunsetDeployments;
    SunsetStats.thisWeek :=
      List.length (filter (fun d => weekAgo <? timestamp d) sunsetDeployments);
    SunsetStats.thisMonth :=
      List.length (filter (fun d => monthAgo <? timestamp d) sunsetDeployments) |}.

End Automation.

(** ** deployer/deployer.ts: deploying and recording a contract *)
Module Deployer.
Import Js Deployments.

(** [interface DeployConfig]; bytecode, ABI and constructor arguments go to
    the chain client untouched and are left out. *)
Record DeployConfig := {
  name : string;
  chainId : string;
  reason : option string }.

Record DeployResult := {
  address : string;
  transactionHash : string;
  explorerUrl : string;
  txExplorerUrl : string;
  resultChainId : string;
  timestamp : Z }.

(** What the chain answers to the deployment transaction. *)
Inductive Submission :=
| SubmitFails (message : string)
| Mined (hash : string) (contractAddress : option string).

(** config/chains.ts: only 'base' is supported. *)
Definition explorerBase (chain : string) : Outcome string :=
  if String.eqb chain "base" then Returns "https://basescan.org"
  else Throws (Failure "Unsupported chain").

Definition getExplorerTxUrl (chain txHash : string) : Outcome string :=
  let* url := explorerBase chain in Returns (url ++ "/tx/" ++ txHash).

Definition getExplorerAddressUrl (chain addr : string) : Outcome string :=
  let* url := explorerBase chain in Returns (url ++ "/address/" ++ addr).

(** [parseEther('0.00001')], in wei. *)
Definition MIN_DEPLOY_WEI : Z := 10 ^ 13.

(** [reason || 'Manual deployment'] *)
Definition reasonOrDefault (r : option string) : string :=
  match r with
  | Some EmptyString | None => "Manual deployment"
  | Some text => text
  end.

(** The ledger record [deployContract] builds: [{ name, ...result, reason }]. *)
Definition recordOf (config : DeployConfig) (r : DeployResult) : DeploymentRecord :=
  {| Deployments.name := name config;
     symbol := None;
     Deployments.address := address r;
     Deployments.transactionHash := Some (transactionHash r);
     txHash := None;
     Deployments.explorerUrl := Some (explorerUrl r);
     Deployments.txExplorerUrl := Some (txExplorerUrl r);
     Deployments.chainId := resultChainId r;
     Deployments.timestamp := timestamp r;
     Deployments.reason := reasonOrDefault (reason config);
     status := None;
     type := None;
     engagement := None;
     sunset := None |}.

(** [deployContract], given the wallet balance, the chain's answer and the
    clock reads ([t_result] for the result's timestamp, [t_load] and
    [t_save] inside [saveDeployment]). *)
Definition deployContract (config : DeployConfig) (balance : Z) (tx : Submission)
  (t_result t_load t_save : Z) (f : MemoryFile)
  : Outcome (MemoryFile * DeployResult) :=
  let* _ := explorerBase (chainId config) in
  if negb (MIN_DEPLOY_WEI <=? balance)%Z then
    Throws (Failure "Insufficient balance for deployment.")
  else
    match tx with
    | SubmitFails message => Throws (Failure message)
    | Mined hash None =>
        Throws (Failure "Deployment failed: No contract address in receipt")
    | Mined hash (Some contractAddress) =>
        let* explorerUrl := getExplorerAddressUrl (chainId config) contractAddress in
        let* txExplorerUrl := getExplorerTxUrl (chainId config) hash in
        let result := {| address := contractAddress;
                         transactionHash := hash;
                         explorerUrl := explorerUrl;
                         txExplorerUrl := txExplorerUrl;
                         resultChainId := chainId config;
                         timestamp := t_result |} in
        let* f' := saveDeployment t_load t_save f (recordOf config result) in
        Returns (f', result)
    end.

End Deployer.

(** ** Specification-level notions *)
Module Lifecycle.
Import Js Deployments.

(** A backing store that holds no usable text: it cannot be read, or its
    text is not JSON. *)
Definition unparseable (f : MemoryFile) : Prop :=
  f = Unreadable \/ exists text, f = Stored (Malformed text).

(** A corrupt backing store: one that exists and does not hold a ledger. *)
Definition corrupt (f : MemoryFile) : Prop :=
  unparseable f \/ exists v, f = Stored (OtherJson v).

(** An empty ledger: version 1 and no records. *)
Definition isEmptyLedger (p : Parsed) : Prop :=
  exists m, p = Ledger m /\ version m = 1 /\ deployments m = [].

(** [d.status === 'sunset'] *)
Definition retiredByStatus : DeploymentRecord -> bool :=
  Tracker.statusIs StatusSunset.

Definition countIf {A : Type} (p : A -> bool) (l : list A) : nat :=
  List.length (filter p l).

(** The states of the backing file that the deploy and sunset operations
    reach from a store with no file. *)
Inductive reachable : MemoryFile -> Prop :=
| reach_start : reachable Missing
| reach_deploy : forall f config balance tx t_result t_load t_save f' r,
    reachable f ->
    Deployer.deployContract config balance tx t_result t_load t_save f
      = Returns (f', r) ->
    reachable f'
| reach_sunset : forall f announce d metrics t_load t_save t_done run,
    reachable f ->
    Automation.processSunsetWith announce d metrics f t_load t_save t_done
      = Returns run ->
    reachable (Automation.file_after run)
| reach_legacy_sunset : forall f t_load t_save addr f',
    reachable f ->
    sunsetDeployment t_load t_save f addr = Returns f' ->
    reachable f'.

(** No record carries the status ['active']. *)
Definition noneActive (f : MemoryFile) : Prop :=
  match f with
  | Stored (LedgerText m) =>
      Forall (fun d => Tracker.statusIs StatusActive d = false) (deployments m)
  | Missing => True
  | _ => False
  end.

(** A record as [deployContract] writes it, for the worked examples. *)
Definition sampleRecord (addr : string) (ts : Z) : DeploymentRecord :=
  Deployer.recordOf
    {| Deployer.name := "Sample"; Deployer.chainId := "base";
       Deployer.reason := None |}
    {| Deployer.address := addr; Deployer.transactionHash := "0xhash";
       Deployer.explorerUrl := "https://basescan.org/address/" ++ addr;
       Deployer.txExplorerUrl := "https://basescan.org/tx/0xhash";
       Deployer.resultChainId := "base"; Deployer.timestamp := ts |}.

(** A ledger of two records: the first retired by the sunset processor
    (status), the second by the legacy [sunsetDeployment] (flag). *)
Definition twoRetired : DeploymentMemory :=
  {| version := 1; lastUpdated := 0;
     deployments :=
       [ Automation.mark "Low engagement" (sampleRecord "0xA" 0);
         set_sunset (sampleRecord "0xB" 0) ] |}.

End Lifecycle.

(** ** engagement/tracker.ts: counting transfer logs, high performers *)
Module Onchain.
Import Js.

(** A Transfer log as the holder count reads it: the recipient, when the
    decoded arguments carry one. *)
Record TransferLog := { recipient : option string }.

(** [set.has(a)] on a [Set<string>] kept in insertion order. *)
Fixpoint has (s : list string) (a : string) : bool :=
  match s with
  | [] => false
  | b :: rest => if String.eqb a b then true else has rest a
  end.

(** [set.add(a)] *)
Definition add (s : list string) (a : string) : list string :=
  if has s a then s else (s ++ [a])%list.

(** The set built by the loop of [getUniqueHolders]. *)
Definition holdersOf (logs : list TransferLog) : list string :=
  fold_left (fun s log => match recipient log with
                          | Some a => add s a
                          | None => s
                          end) logs [].

(** [getTransferCount], given what [getLogs] does: it raises, or returns
    the logs. *)
Definition getTransferCount (rpc : Outcome (list TransferLog)) : Z :=
  match rpc with
  | Returns logs => Z.of_nat (List.length logs)
  | Throws _ => 0
  end.

Definition getUniqueHolders (rpc : Outcome (list TransferLog)) : Z :=
  match rpc with
  | Returns logs => Z.of_nat (List.length (holdersOf logs))
  | Throws _ => 0
  end.

Definition is_promote (r : Tracker.Recommendation) : bool :=
  match r with Tracker.promote => true | _ => false end.

Definition getHighPerformers (observe : Deployments.DeploymentRecord -> Tracker.Probe)
  (t_load : Z) (f : Deployments.MemoryFile)
  : Outcome (list Tracker.EngagementMetrics) :=
  let* allMetrics := Tracker.analyzeAllDeployments observe t_load f in
  Returns (filter (fun m => is_promote (Tracker.recommendation m)) allMetrics).

End Onchain.

(** ** sunset/automation.ts: the sunset run *)
Module SunsetRun.
Import Js JsString Deployments.

(** What the outside world does while the i-th candidate is processed: the
    three clock reads of [processSunset] and the fate of its cast. *)
Record Step := {
  stepLoad : Z;
  stepSave : Z;
  stepDone : Z;
  stepNet : Farcaster.Network }.

Inductive Event :=
| Sunset (e : Automation.Effect)
| StatusUpdate (message : string).

(** The loop of [runSunsetAutomation] over the candidates: each one is
    looked up by address in the ledger loaded before the loop, skipped when
    absent, and processed otherwise. *)
Fixpoint processCandidates (signerConfigured : bool) (world : nat -> Step)
  (i : nat) (snapshot : list DeploymentRecord)
  (candidates : list Tracker.EngagementMetrics) (f : MemoryFile)
  : Outcome (MemoryFile * list Automation.Effect * list Automation.SunsetResult) :=
  match candidates with
  | [] => Returns (f, [], [])
  | metrics :: rest =>
      match find (fun d => String.eqb (address d) (Tracker.address metrics))
                 snapshot with
      | None => processCandidates signerConfigured world (S i) snapshot rest f
      | Some deployment =>
          let s := world i in
          let* run := Automation.processSunset signerConfigured (stepNet s)
                        deployment metrics f (stepLoad s) (stepSave s) (stepDone s) in
          let* r := processCandidates signerConfigured world (S i) snapshot rest
                      (Automation.file_after run) in
          let '(f', effects, results) := r in
          Returns (f', (Automation.effects run ++ effects)%list,
                   Automation.result run :: results)
      end
  end.

Definition summaryMessage (n : nat) : string :=
  "Sunset " ++ decimal (Z.of_nat n)
  ++ " contract(s) due to low engagement. Learning and iterating...".

(** [runSunsetAutomation]: the backing file after the run, the external
    effects in order, and the results. [observe] and [t_candidates] belong
    to the analysis, [t_snapshot] to the load before the loop. *)
Definition runSunsetAutomation (signerConfigured : bool) (world : nat -> Step)
  (observe : DeploymentRecord -> Tracker.Probe) (t_candidates t_snapshot : Z)
  (f : MemoryFile)
  : Outcome (MemoryFile * list Event * list Automation.SunsetResult) :=
  let* candidates := Tracker.getSunsetCandidates observe t_candidates f in
  match candidates with
  | [] => Returns (f, [], [])
  | _ :: _ =>
      let* loaded := loadMemory t_snapshot f in
      let* memory := ledger_of loaded in
      let* r := processCandidates signerConfigured world 0 (deployments memory)
                  candidates f in
      let '(f', effects, results) := r in
      let posted :=
        match results with
        | [] => []
        | _ :: _ => [StatusUpdate (summaryMessage (List.length results))]
        end in
      Returns (f', (map Sunset effects ++ posted)%list, results)
  end.

End SunsetRun.

(** ** daemon/agent.ts: the autonomous loop *)
Module Daemon.
Import Js JsString Deployments.

Definition SCAN_INTERVAL_MS : Z := 10 * 60 * 1000.
Definition ENGAGEMENT_CHECK_INTERVAL_MS : Z := 30 * 60 * 1000.
Definition STATUS_UPDATE_INTERVAL_MS : Z := 60 * 60 * 1000.

(** The module-level variables of the daemon. *)
Record State := {
  isRunning : bool;
  lastStatusUpdate : Z;
  lastEngagementCheck : Z;
  iterationCount : Z }.

Definition initial : State :=
  {| isRunning := false; lastStatusUpdate := 0; lastEngagementCheck := 0;
     iterationCount := 0 |}.

(** The assignments of [startDaemon] before its loop; each of the two reads
    the clock. *)
Definition started (st : State) (t_status t_check : Z) : State :=
  {| isRunning := true;
     lastStatusUpdate := t_status;
     lastEngagementCheck := t_check - ENGAGEMENT_CHECK_INTERVAL_MS + 60000;
     iterationCount := iterationCount st |}.

(** The part of a detected signal that [runIteration] reads. *)
Record SuggestedToken := {
  tokenName : string;
  tokenSymbol : string }.

Record DetectedSignal := {
  narrative : string;
  suggestedToken : option SuggestedToken;
  shouldDeploy : bool;
  reason : string }.

(** What [deployClankerToken] returns. *)
Record ClankerResult := {
  tokenAddress : string;
  uniswapLink : string;
  explorerLink : string }.

Inductive Event :=
| PreAnnounce (contractName why : string)
| ClankerDeployed (contractName symbol tokenAddress : string)
| ContractDeployed (kind : Agent.ContractType) (contractName contractAddress : string)
| DeploymentAnnounced (contractName contractAddress : string).

(** What the outside world does during one iteration. *)
Record World := {
  gateBalance : Z;
  gateLoad : Z;
  gateHour : Z;
  gateMinutes : Z;
  detected : Outcome (option DetectedSignal);
  clanker : Outcome ClankerResult;
  deployBalance : Z;
  submission : Deployer.Submission;
  deployResultClock : Z;
  deployLoad : Z;
  deploySave : Z }.

(** [a || b] on strings: the empty string is falsy. *)
Definition orDefault (a : option string) (b : string) : string :=
  match a with
  | Some EmptyString | None => b
  | Some s => s
  end.

(** A step of the iteration: what it has announced and deployed so far, and
    how it ended. An exception keeps what was done before it. *)
Definition Traced (A : Type) : Type := list Event * Outcome A.

Definition silent {A : Type} (c : Outcome A) : Traced A := ([], c).

Definition finish {A : Type} (a : A) : Traced A := ([], Returns a).

Definition emit (e : Event) : Traced unit := ([e], Returns tt).

Definition andThen {A B : Type} (c : Traced A) (k : A -> Traced B) : Traced B :=
  match c with
  | (before, Returns a) => let '(after, r) := k a in ((before ++ after)%list, r)
  | (before, Throws e) => (before, Throws e)
  end.

Notation "'let!' x ':=' c 'in' k" := (andThen c (fun x => k))
  (at level 10, x name, c at level 100, k at level 200).

(** The body of the [try] block of [runIteration]: the file it leaves. *)
Definition iterationBody (w : World) (f : MemoryFile) : Traced MemoryFile :=
  (* Step 1: check if we can deploy *)
  let! verdict := silent (Detector.canDeploy (gateBalance w) f (gateLoad w)
                            (gateHour w) (gateMinutes w)) in
  if negb (Detector.allowed verdict) then finish f
  else
    (* Step 2: detect signals *)
    let! found := silent (detected w) in
    match found with
    | None => finish f
    | Some signal =>
        if negb (shouldDeploy signal) then finish f
        else
          (* Step 3: determine contract type *)
          let contractType := Agent.selectContractType (narrative signal) in
          let contractName :=
            orDefault (option_map tokenName (suggestedToken signal))
                      "Moltchain Contract" in
          let contractSymbol :=
            orDefault (option_map tokenSymbol (suggestedToken signal)) "MOLT" in
          (* Step 4: announce pre-deployment (the cast never raises) *)
          let! _ := emit (PreAnnounce contractName (reason signal)) in
          (* Step 5: deploy based on contract type *)
          match contractType with
          | Agent.erc20 =>
              let! clankerResult := silent (clanker w) in
              let! _ := emit (ClankerDeployed contractName contractSymbol
                                (tokenAddress clankerResult)) in
              (* Step 6: announce success *)
              let! _ := emit (DeploymentAnnounced contractName
                                (tokenAddress clankerResult)) in
              finish f
          | kind =>
              let! deployed :=
                silent (Deployer.deployContract
                          {| Deployer.name := contractName;
                             Deployer.chainId := "base";
                             Deployer.reason := Some (reason signal) |}
                          (deployBalance w) (submission w)
                          (deployResultClock w) (deployLoad w) (deploySave w) f) in
              let! _ := emit (ContractDeployed kind contractName
                                (Deployer.address (snd deployed))) in
              (* Step 6: announce success *)
              let! _ := emit (DeploymentAnnounced contractName
                                (Deployer.address (snd deployed))) in
              finish (fst deployed)
          end
    end.

(** [runIteration]: the counter goes up, and whatever the body raises is
    caught and logged; what was announced before the exception stays
    announced. *)
Definition runIteration (st : State) (w : World) (f : MemoryFile)
  : State * MemoryFile * list Event :=
  let st' := {| isRunning := isRunning st;
                lastStatusUpdate := lastStatusUpdate st;
                lastEngagementCheck := lastEngagementCheck st;
                iterationCount := iterationCount st + 1 |} in
  match iterationBody w f with
  | (events, Returns f') => (st', f', events)
  | (events, Throws _) => (st', f, events)
  end.

(** [runEngagementCheck] at clock [now]; [observeAll] belongs to the first
    analysis (whose result is only logged), the rest to the sunset run. *)
Definition runEngagementCheck (st : State) (now : Z)
  (observeAll : DeploymentRecord -> Tracker.Probe) (t_all : Z)
  (signerConfigured : bool) (world : nat -> SunsetRun.Step)
  (observe : DeploymentRecord -> Tracker.Probe) (t_candidates t_snapshot : Z)
  (f : MemoryFile)
  : State * MemoryFile * list SunsetRun.Event :=
  if now - lastEngagementCheck st <? ENGAGEMENT_CHECK_INTERVAL_MS then (st, f, [])
  else
    let st' := {| isRunning := isRunning st;
                  lastStatusUpdate := lastStatusUpdate st;
                  lastEngagementCheck := now;
                  iterationCount := iterationCount st |} in
    match
      (let* metrics := Tracker.analyzeAllDeployments observeAll t_all f in
       SunsetRun.runSunsetAutomation signerConfigured world observe
         t_candidates t_snapshot f)
    with
    | Returns (f', events, _) => (st', f', events)
    | Throws _ => (st', f, [])
    end.

Definition newline : string := String (ascii_of_nat 10) EmptyString.

(** The status message, with the bytes the template literal has in the
    source file; [balance] is the wallet's formatted balance. *)
Definition statusMessage (total active retired : nat) (balance : string)
  (iterations : Z) : string :=
  "Autonomous Agent Status" ++ newline ++ newline
  ++ "ğŸ“Š Deployments: " ++ decimal (Z.of_nat total) ++ " total, "
  ++ decimal (Z.of_nat active) ++ " active, "
  ++ decimal (Z.of_nat retired) ++ " sunset" ++ newline
  ++ "ğŸ’° Wallet: " ++ balance ++ " ETH" ++ newline
  ++ "ğŸ”„ Iterations: " ++ decimal iterations ++ newline
  ++ "â° Uptime: Running continuously" ++ newline ++ newline
  ++ "Monitoring for Base narratives...".

(** [postPeriodicStatus] at clock [now]: the new state and the message
    handed to [postStatusUpdate], if any. [balance] is what the wallet query
    does. *)
Definition postPeriodicStatus (st : State) (now : Z) (t_stats t_sunset t_now : Z)
  (balance : Outcome string) (f : MemoryFile) : State * option string :=
  if now - lastStatusUpdate st <? STATUS_UPDATE_INTERVAL_MS then (st, None)
  else
    let st' := {| isRunning := isRunning st;
                  lastStatusUpdate := now;
                  lastEngagementCheck := lastEngagementCheck st;
                  iterationCount := iterationCount st |} in
    match
      (let* stats := getDeploymentStats t_stats f in
       let* sunsetStats := Automation.getSunsetStats t_sunset t_now f in
       let* b := balance in
       Returns (statusMessage (Stats.total stats) (Stats.active stats)
                  (Automation.SunsetStats.total sunsetStats) b
                  (iterationCount st)))
    with
    | Returns message => (st', Some message)
    | Throws _ => (st', None)
    end.

(** Each clock read of the list is at least the engagement interval after
    the one before it, the first one after [previous]. *)
Fixpoint spaced (previous : Z) (fired : list Z) : Prop :=
  match fired with
  | [] => True
  | t :: rest => ENGAGEMENT_CHECK_INTERVAL_MS <= t - previous /\ spaced t rest
  end.

End Daemon.

(** ** signals/detector.ts: detecting a narrative *)
Module Signals.
Import Js JsString Deployments.

(** The [text] of a cast as the feed delivers it: a string, or something
    else ([None]: the member is missing, or holds another value). *)
Definition CastText : Type := option string.

(** What a feed request does: [fetch], [response.json()] or the reading of
    the casts raises, the response is not ok, or the body is read, with or
    without a [casts] array. *)
Inductive Feed :=
| FeedRaises
| FeedNotOk
| FeedBody (casts : option (list CastText)).

(** [data.casts?.map(c => c.text) || []], and [[]] on every failure. *)
Definition fetchTrendingCasts (feed : Feed) : list CastText :=
  match feed with
  | FeedBody (Some texts) => texts
  | FeedBody None => []
  | FeedNotOk => []
  | FeedRaises => []
  end.

Definition fetchBaseCasts (feed : Feed) : list CastText :=
  match feed with
  | FeedBody (Some texts) => texts
  | FeedBody None => []
  | FeedNotOk => []
  | FeedRaises => []
  end.

(** The object that [JSON.parse] gives for the reply, under its declared
    type. *)
Record Analysis := {
  analysisShouldDeploy : bool;
  analysisNarrative : string;
  analysisStrength : float;
  analysisSuggestedToken : option Daemon.SuggestedToken;
  analysisReason : string }.

(** What the language-model call does. The prompt is built from the casts
    and the past deployments and only travels to the service; the reply is
    an input here. *)
Inductive Completion :=
| SdkRaises (e : Error) (* the import or the client constructor, before the [try] *)
| RequestRaises         (* the request, or reading the choice, inside the [try] *)
| NoObject              (* the reply has no [{ ... }] part, or is empty *)
| NotJson               (* [JSON.parse] raises on the matched part *)
| Analysed (a : Analysis).

(** [interface DetectedSignal] *)
Record DetectedSignal := {
  id : string;
  narrative : string;
  strength : float;
  source : string;
  suggestedToken : option Daemon.SuggestedToken;
  shouldDeploy : bool;
  reason : string;
  timestamp : Z }.

(** The import of the SDK and the construction of its client, before the
    [try]. *)
Definition client (llm : Completion) : Outcome unit :=
  match llm with
  | SdkRaises e => Throws e
  | _ => Returns tt
  end.

(** [trendingCasts.slice(0, 10).map((c, i) => ... c.substring(0, 200) ...)],
    while the prompt is built before the [try]: the texts that go into the
    prompt, or the TypeError of [substring] on a cast that is no string. *)
Fixpoint textsOf (casts : list CastText) : Outcome (list string) :=
  match casts with
  | [] => Returns []
  | None :: _ => Throws TypeError
  | Some text :: rest => let* texts := textsOf rest in Returns (text :: texts)
  end.

Definition promptCasts (trendingCasts : list CastText) : Outcome (list string) :=
  textsOf (firstn 10 trendingCasts).

Definition analyzeSignalsWithLLM (trendingCasts : list CastText)
  (pastDeployments : list string)
  (llm : Completion) (t_id t_stamp : Z) : Outcome (option DetectedSignal) :=
  let* _ := client llm in
  let* _ := promptCasts trendingCasts in
  try_catch
    (match llm with
     | SdkRaises e => Throws e
     | RequestRaises => Throws (Failure "request")
     | NoObject => Returns None
     | NotJson => Throws SyntaxError
     | Analysed analysis =>
         Returns (Some {|
           id := "signal-" ++ decimal t_id;
           narrative := analysisNarrative analysis;
           strength := analysisStrength analysis;
           source := "farcaster";
           suggestedToken := analysisSuggestedToken analysis;
           shouldDeploy :=
             analysisShouldDeploy analysis && (7 <=? analysisStrength analysis)%float;
           reason := analysisReason analysis;
           timestamp := t_stamp |})
     end)
    (fun _ => Returns None).

Definition detectSignals (trending base : Feed) (t_load : Z) (f : MemoryFile)
  (llm : Completion) (t_id t_stamp : Z) : Outcome (option DetectedSignal) :=
  (* Step 1: gather social signals *)
  let allCasts := (fetchTrendingCasts trending ++ fetchBaseCasts base)%list in
  if Nat.eqb (List.length allCasts) 0 then Returns None
  else
    (* Step 2: past deployments, to avoid duplicates *)
    let* loaded := loadMemory t_load f in
    let* memory := ledger_of loaded in
    let pastDeployments := map name (deployments memory) in
    (* Step 3: analyse with the language model *)
    analyzeSignalsWithLLM allCasts pastDeployments llm t_id t_stamp.

(** The fields of the signal that [runIteration] reads. *)
Definition read (signal : DetectedSignal) : Daemon.DetectedSignal :=
  {| Daemon.narrative := narrative signal;
     Daemon.suggestedToken := suggestedToken signal;
     Daemon.shouldDeploy := shouldDeploy signal;
     Daemon.reason := reason signal |}.

(** The world of an iteration in which [detectSignals] answers [found]. *)
Definition detecting (w : Daemon.World) (found : Outcome (option DetectedSignal))
  : Daemon.World :=
  {| Daemon.gateBalance := Daemon.gateBalance w;
     Daemon.gateLoad := Daemon.gateLoad w;
     Daemon.gateHour := Daemon.gateHour w;
     Daemon.gateMinutes := Daemon.gateMinutes w;
     Daemon.detected := let* signal := found in Returns (option_map read signal);
     Daemon.clanker := Daemon.clanker w;
     Daemon.deployBalance := Daemon.deployBalance w;
     Daemon.submission := Daemon.submission w;
     Daemon.deployResultClock := Daemon.deployResultClock w;
     Daemon.deployLoad := Daemon.deployLoad w;
     Daemon.deploySave := Daemon.deploySave w |}.

End Signals.

(** ** daemon/agent.ts: the passes of the loop of [startDaemon] *)
Module Loop.
Import Js Deployments Daemon.

(** What the outside world does during one pass of the loop. *)
Record Pass := {
  iteration : World;
  checkClock : Z;
  observeAll : DeploymentRecord -> Tracker.Probe;
  analysisLoad : Z;
  signerConfigured : bool;
  sunsetWorld : nat -> SunsetRun.Step;
  observe : DeploymentRecord -> Tracker.Probe;
  candidatesLoad : Z;
  snapshotLoad : Z;
  statusClock : Z;
  statsLoad : Z;
  sunsetStatsLoad : Z;
  sunsetStatsClock : Z;
  balance : Outcome string }.

Inductive Event :=
| Iteration (e : Daemon.Event)
| Check (e : SunsetRun.Event)
| Status (message : string).

(** The body of the loop: [runIteration], [runEngagementCheck],
    [postPeriodicStatus]. *)
Definition runPass (st : State) (f : MemoryFile) (p : Pass)
  : State * MemoryFile * list Event :=
  let '(st1, f1, deployed) := runIteration st (iteration p) f in
  let '(st2, f2, checked) :=
    runEngagementCheck st1 (checkClock p) (observeAll p) (analysisLoad p)
      (signerConfigured p) (sunsetWorld p) (observe p) (candidatesLoad p)
      (snapshotLoad p) f1 in
  let '(st3, posted) :=
    postPeriodicStatus st2 (statusClock p) (statsLoad p) (sunsetStatsLoad p)
      (sunsetStatsClock p) (balance p) f2 in
  (st3, f2,
   (map Iteration deployed ++ map Check checked
    ++ match posted with Some message => [Status message] | None => [] end)%list).

(** [while (isRunning) { ... }], one element of [passes] per pass, for as
    long as the process lives; the backing file is written by the daemon
    only. *)
Fixpoint runLoop (st : State) (f : MemoryFile) (passes : list Pass)
  : State * MemoryFile * list Event :=
  match passes with
  | [] => (st, f, [])
  | p :: rest =>
      if isRunning st then
        let '(st', f', events) := runPass st f p in
        let '(st'', f'', later) := runLoop st' f' rest in
        (st'', f'', (events ++ later)%list)
      else (st, f, [])
  end.

(** The daemon's variables after each pass of the loop. *)
Fixpoint history (st : State) (f : MemoryFile) (passes : list Pass) : list State :=
  match passes with
  | [] => []
  | p :: rest =>
      if isRunning st then
        let '(st', f', _) := runPass st f p in
        st' :: history st' f' rest
      else []
  end.

(** What the loop may do to [lastEngagementCheck], pass by pass, given the
    clock read of each pass's engagement check and the value found after
    the pass: earlier than 30 minutes after the last check nothing changes;
    otherwise the clock read is recorded. *)
Fixpoint scheduled (previous : Z) (passes : list (Z * Z)) : Prop :=
  match passes with
  | [] => True
  | (now, stamp) :: rest =>
      ((now - previous < ENGAGEMENT_CHECK_INTERVAL_MS /\ stamp = previous)
       \/ (ENGAGEMENT_CHECK_INTERVAL_MS <= now - previous /\ stamp = now))
      /\ scheduled stamp rest
  end.

(** The checks made: the values of [lastEngagementCheck] that differ from
    the one before. *)
Fixpoint checksMade (previous : Z) (stamps : list Z) : list Z :=
  match stamps with
  | [] => []
  | stamp :: rest =>
      if stamp =? previous then checksMade previous rest
      else stamp :: checksMade stamp rest
  end.

(** A pass in which a vote narrative is detected and the deployment is
    mined, for the worked examples. *)
Definition samplePass : Pass :=
  let quiet := fun _ : DeploymentRecord =>
    {| Tracker.fetchedTransfers := 0; Tracker.fetchedHolders := 0;
       Tracker.fetchedMentions := 0; Tracker.clockAtScore := 7200000;
       Tracker.clockAtReturn := 7200000 |} in
  {| iteration :=
       {| gateBalance := 10 ^ 18; gateLoad := 7200000; gateHour := 7200000;
          gateMinutes := 7200000;
          detected := Returns (Some {| narrative := "community vote";
                                       suggestedToken := None;
                                       shouldDeploy := true;
                                       reason := "strong narrative" |});
          clanker := Throws (Failure "not used");
          deployBalance := 10 ^ 18;
          submission := Deployer.Mined "0xhash" (Some "0xA"%string);
          deployResultClock := 7200000; deployLoad := 7200000;
          deploySave := 7200000 |};
     checkClock := 7200000;
     observeAll := quiet;
     analysisLoad := 7200000;
     signerConfigured := true;
     sunsetWorld := fun _ => {| SunsetRun.stepLoad := 7200000;
                                SunsetRun.stepSave := 7200000;
                                SunsetRun.stepDone := 7200000;
                                SunsetRun.stepNet := Farcaster.FetchFails "offline" |};
     observe := quiet;
     candidatesLoad := 7200000;
     snapshotLoad := 7200000;
     statusClock := 7200000;
     statsLoad := 7200000;
     sunsetStatsLoad := 7200000;
     sunsetStatsClock := 7200000;
     balance := Returns "1.0" |}.

End Loop.

(** ** Lookups in the status report *)
Module Report.
Import Deployments.

(** [byChain[chain]] *)
Fixpoint lookup (k : string) (l : list (string * nat)) : option nat :=
  match l with
  | [] => None
  | (k', n) :: rest => if String.eqb k k' then Some n else lookup k rest
  end.

Definition onChain (chain : string) (l : list DeploymentRecord) : nat :=
  List.length (filter (fun d => String.eqb (chainId d) chain) l).

(** The first record with this address. *)
Definition firstWithAddress (addr : string) (l : list DeploymentRecord)
  : option DeploymentRecord :=
  find (fun d => String.eqb (address d) addr) l.

(** The first record with this address has status 'sunset'. *)
Definition retired (addr : string) (l : list DeploymentRecord) : Prop :=
  exists d, firstWithAddress addr l = Some d /\ status d = Some StatusSunset.

(** The records of a stored ledger; none for any other store. *)
Definition recordsOf (f : MemoryFile) : list DeploymentRecord :=
  match f with
  | Stored (LedgerText m) => deployments m
  | _ => []
  end.

(** [d'] is the record [d] at a later time: the same deployment, with a
    retirement (by status or by flag) that is kept, and with the status
    'active' only if it had it before. *)
Definition kept (d d' : DeploymentRecord) : Prop :=
  address d' = address d /\ name d' = name d /\ timestamp d' = timestamp d /\
  (status d = Some StatusSunset -> status d' = Some StatusSunset) /\
  (flagged d = true -> flagged d' = true) /\
  (status d' = Some StatusActive -> status d = Some StatusActive).

(** Every record of [l] is kept in [l'], after [k] newer records. *)
Definition extends (k : nat) (l l' : list DeploymentRecord) : Prop :=
  List.length l' = (k + List.length l)%nat /\
  forall i d, nth_error l i = Some d ->
    exists d', nth_error l' (k + i) = Some d' /\ kept d d'.

(** One operation of the daemon on the backing file. *)
Inductive step : MemoryFile -> MemoryFile -> Prop :=
| step_deploy : forall f config balance tx t_result t_load t_save f' r,
    Deployer.deployContract config balance tx t_result t_load t_save f
      = Js.Returns (f', r) ->
    step f f'
| step_sunset : forall f announce d metrics t_load t_save t_done run,
    Automation.processSunsetWith announce d metrics f t_load t_save t_done
      = Js.Returns run ->
    step f (Automation.file_after run)
| step_legacy_sunset : forall f t_load t_save addr f',
    sunsetDeployment t_load t_save f addr = Js.Returns f' ->
    step f f'.

(** Any number of operations. *)
Inductive steps : MemoryFile -> MemoryFile -> Prop :=
| steps_none : forall f, steps f f
| steps_more : forall f g h, step f g -> steps g h -> steps f h.

End Report.

(** * Part II: properties *)

(** ** Strings *)
Module StringFacts.
Import JsString.

Lemma prefix_app : forall p s, String.prefix p s = true <-> exists rest, s = p ++ rest.
Proof.
  induction p as [|c p IH]; intros s; simpl.
  - split; [intros _; now exists s | intros _; now destruct s].
  - destruct s as [|d s].
    + split; [discriminate | intros [r Hr]; discriminate].
    + simpl. destruct (Ascii.ascii_dec c d) as [->|Hne].
      * rewrite IH. split; intros [r Hr]; exists r; [now rewrite Hr | now injection Hr].
      * split; [discriminate | intros [r Hr]; injection Hr; intros _ E; now elim Hne].
Qed.

Lemma includes_eq : forall s needle,
  includes s needle =
  (String.prefix needle s ||
   match s with EmptyString => false | String _ rest => includes rest needle end)%bool.
Proof.
  intros [|c s] needle; cbn [includes];
    destruct (String.prefix needle _); reflexivity.
Qed.

Lemma includes_app : forall s needle,
  includes s needle = true <-> exists before after, s = before ++ needle ++ after.
Proof.
  induction s as [|c s IH]; intros needle;
    rewrite includes_eq, orb_true_iff, prefix_app.
  - split.
    + intros [[r Hr]|H]; [now exists "", r | discriminate].
    + intros [b [a E]]. left. destruct b; [now exists a | discriminate].
  - rewrite IH. split.
    + intros [[r Hr]|[b [a E]]]; [now exists "", r|].
      exists (String c b), a. simpl. now rewrite E.
    + intros [[|d b] [a E]]; [left; now exists a|].
      right. simpl in E. injection E; intros E' _. now exists b, a.
Qed.

Lemma toLowerCase_app : forall a b,
  toLowerCase (a ++ b) = toLowerCase a ++ toLowerCase b.
Proof.
  induction a as [|c a IH]; intros b; simpl; [reflexivity | now rewrite IH].
Qed.

Lemma toLowerCase_split : forall s a b,
  toLowerCase s = a ++ b ->
  exists sa sb, s = sa ++ sb /\ toLowerCase sa = a /\ toLowerCase sb = b.
Proof.
  intros s a; revert s. induction a as [|c a IH]; intros s b E.
  - exists "", s. auto.
  - destruct s as [|d s]; [discriminate|]. simpl in E.
    injection E; intros E' Ec.
    destruct (IH _ _ E') as [sa [sb [-> [Ha Hb]]]].
    exists (String d sa), sb. simpl. now rewrite Ha, Ec.
Qed.

(** Searching the lower-cased text is case-insensitive search in the text. *)
Lemma includes_lower_mentions : forall text kw,
  includes (toLowerCase text) kw = true <-> mentions text kw.
Proof.
  intros text kw. rewrite includes_app. split.
  - intros [b [a E]].
    destruct (toLowerCase_split _ _ _ E) as [sb [rest [-> [Hb Hrest]]]].
    destruct (toLowerCase_split _ _ _ Hrest) as [part [sa [-> [Hp Ha]]]].
    now exists sb, part, sa.
  - intros [b [part [a [-> Hp]]]].
    exists (toLowerCase b), (toLowerCase a).
    now rewrite !toLowerCase_app, Hp.
Qed.

Lemma append_assoc : forall a b c : string, (a ++ b) ++ c = a ++ (b ++ c).
Proof.
  induction a as [|x a IH]; intros b c; simpl; [reflexivity | now rewrite IH].
Qed.

Lemma includes_head : forall needle rest, includes (needle ++ rest) needle = true.
Proof.
  intros. apply includes_app. now exists "", rest.
Qed.

Lemma includes_skip : forall a s needle,
  includes s needle = true -> includes (a ++ s) needle = true.
Proof.
  intros a s needle H. apply includes_app in H. destruct H as [b [c ->]].
  apply includes_app. exists (a ++ b), c. now rewrite append_assoc.
Qed.

End StringFacts.

(** ** Contract type selection *)
Module AgentFacts.
Import JsString StringFacts Agent.

Lemma or3_mentions : forall t a b c,
  (includes (toLowerCase t) a || includes (toLowerCase t) b
   || includes (toLowerCase t) c)%bool = true
  <-> (mentions t a \/ mentions t b \/ mentions t c).
Proof.
  intros. rewrite !orb_true_iff, !includes_lower_mentions. tauto.
Qed.

Lemma lower_ascii_either_case : forall k c,
  (Nat.leb 65 (nat_of_ascii k) && Nat.leb (nat_of_ascii k) 90)%bool = false ->
  (lower_ascii c = k <-> Keywords.either_case k c = true).
Proof.
  intros k c Hk. unfold lower_ascii, Keywords.either_case, Keywords.capital.
  pose proof (nat_ascii_bounded c) as Bc. pose proof (nat_ascii_bounded k) as Bk.
  rewrite orb_true_iff, Ascii.eqb_eq.
  apply andb_false_iff in Hk. rewrite !Nat.leb_gt in Hk.
  destruct (Nat.leb 65 (nat_of_ascii c) && Nat.leb (nat_of_ascii c) 90)%bool eqn:Hc.
  - apply andb_true_iff in Hc. rewrite !Nat.leb_le in Hc. split.
    + intros <-. right.
      rewrite nat_ascii_embedding by lia.
      replace (Nat.leb 97 (nat_of_ascii c + 32) && Nat.leb (nat_of_ascii c + 32) 122)%bool
        with true
        by (symmetry; apply andb_true_iff; rewrite !Nat.leb_le; lia).
      replace (nat_of_ascii c + 32 - 32)%nat with (nat_of_ascii c) by lia.
      rewrite ascii_nat_embedding. apply Ascii.eqb_refl.
    + intros [->|H]; [lia|].
      destruct (Nat.leb 97 (nat_of_ascii k) && Nat.leb (nat_of_ascii k) 122)%bool
        eqn:Hs; [|discriminate H].
      apply andb_true_iff in Hs. rewrite !Nat.leb_le in Hs.
      apply Ascii.eqb_eq in H. subst c.
      rewrite nat_ascii_embedding by lia.
      replace (nat_of_ascii k - 32 + 32)%nat with (nat_of_ascii k) by lia.
      apply ascii_nat_embedding.
  - apply andb_false_iff in Hc. rewrite !Nat.leb_gt in Hc. split.
    + intros ->. now left.
    + intros [->|H]; [reflexivity|].
      destruct (Nat.leb 97 (nat_of_ascii k) && Nat.leb (nat_of_ascii k) 122)%bool
        eqn:Hs; [|discriminate H].
      apply andb_true_iff in Hs. rewrite !Nat.leb_le in Hs.
      apply Ascii.eqb_eq in H. subst c.
      rewrite nat_ascii_embedding in Hc by lia. lia.
Qed.

Lemma toLowerCase_spells : forall kw part,
  Keywords.small kw = true ->
  (toLowerCase part = kw <-> Keywords.spells kw part = true).
Proof.
  induction kw as [|k kw IH]; intros [|c part] Hs; cbn [toLowerCase Keywords.spells].
  - tauto.
  - split; discriminate.
  - split; discriminate.
  - cbn [Keywords.small] in Hs. apply andb_true_iff in Hs. destruct Hs as [Hk Hs].
    apply negb_true_iff in Hk.
    rewrite andb_true_iff, <- (IH part Hs), <- (lower_ascii_either_case k c Hk).
    split; [intros H; injection H; auto | intros [-> ->]; reflexivity].
Qed.

Lemma mentions_occurs : forall t kw,
  Keywords.small kw = true -> (mentions t kw <-> Keywords.occurs t kw).
Proof.
  intros t kw Hs. unfold mentions, Keywords.occurs.
  split; intros [before [part [after [E H]]]]; exists before, part, after;
    (split; [exact E|]); now apply (toLowerCase_spells kw part Hs).
Qed.

Lemma or3_occurs : forall t a b c,
  Keywords.small a = true -> Keywords.small b = true -> Keywords.small c = true ->
  ((includes (toLowerCase t) a || includes (toLowerCase t) b
    || includes (toLowerCase t) c)%bool = true
   <-> (Keywords.occurs t a \/ Keywords.occurs t b \/ Keywords.occurs t c)).
Proof.
  intros t a b c Ha Hb Hc.
  rewrite or3_mentions, (mentions_occurs t a Ha), (mentions_occurs t b Hb),
    (mentions_occurs t c Hc). tauto.
Qed.

(** C4. Archetype selection is a total function of the narrative decided by
    case-insensitive substring match in fixed priority order: a narrative in
    which "vote", "decide" or "poll" occurs, in small or capital letters,
    gives [vote]; otherwise one in which "registry", "list" or "catalog"
    occurs gives [registry]; otherwise one in which "nft", "collection" or
    "badge" occurs gives [erc1155]; anything else gives [erc20]; with the
    four sample narratives of the specification, and narratives that carry
    their keyword in capitals only. *)
Theorem selectContractType_priority :
  (forall t, Keywords.voting t -> selectContractType t = vote) /\
  (forall t, ~ Keywords.voting t -> Keywords.listing t ->
             selectContractType t = registry) /\
  (forall t, ~ Keywords.voting t -> ~ Keywords.listing t -> Keywords.collecting t ->
             selectContractType t = erc1155) /\
  (forall t, ~ Keywords.voting t -> ~ Keywords.listing t -> ~ Keywords.collecting t ->
             selectContractType t = erc20) /\
  selectContractType "Let's vote on this" = vote /\
  selectContractType "new NFT collection" = erc1155 /\
  selectContractType "community registry list" = registry /\
  selectContractType "moon rocket meme" = erc20 /\
  selectContractType "VOTE NOW" = vote /\
  selectContractType "Time To Decide" = vote /\
  selectContractType "The Meme CATALOG" = registry /\
  selectContractType "NFT drop" = erc1155 /\
  selectContractType "BADGES for a POLL" = vote.
Proof.
  unfold Keywords.voting, Keywords.listing, Keywords.collecting.
  repeat split; try reflexivity; intros t;
    rewrite <- ?or3_occurs by reflexivity;
    unfold selectContractType; cbv zeta; intros;
    repeat match goal with
    | H : ?b = true |- context [if ?b then _ else _] => rewrite H
    | H : ?b <> true |- context [if ?b then _ else _] =>
        apply not_true_is_false in H; rewrite H
    end; reflexivity.
Qed.

End AgentFacts.

(** ** The ledger file *)
Module DeploymentsFacts.
Import Js Deployments Lifecycle.

Lemma loadMemory_ledger : forall now m,
  loadMemory now (Stored (LedgerText m)) = Returns (Ledger m).
Proof. reflexivity. Qed.

Lemma loadMemory_missing : forall now,
  loadMemory now Missing = Returns (Ledger (emptyMemory now)).
Proof. reflexivity. Qed.

Lemma loadMemory_total : forall now f, exists p, loadMemory now f = Returns p.
Proof.
  intros now [| |[text|m|v]]; eexists; reflexivity.
Qed.

(** C9, as stated, fails: a store holding the JSON text [null] is corrupt,
    yet [loadMemory] returns that value under the ledger's type instead of
    an empty ledger, and the next reader of the ledger raises. *)
Lemma loadMemory_null_not_empty :
  corrupt (Stored (OtherJson JNull)) /\
  loadMemory 0 (Stored (OtherJson JNull)) = Returns (NotLedger JNull) /\
  ~ (exists p, loadMemory 0 (Stored (OtherJson JNull)) = Returns p /\ isEmptyLedger p) /\
  getDeploymentStats 0 (Stored (OtherJson JNull)) = Throws TypeError.
Proof.
  repeat split.
  - right. now exists JNull.
  - intros [p [E [m [-> _]]]]. discriminate E.
Qed.

(** C9 (amended). A store that is missing, unreadable or not parseable as
    JSON loads as the empty ledger (version 1, no records); [loadMemory]
    never raises, whatever the store holds; and a store whose text parses as
    JSON is returned as parsed, with no check of its shape. *)
Theorem loadMemory_tolerant :
  (forall now f, f = Missing \/ unparseable f ->
     loadMemory now f = Returns (Ledger (emptyMemory now)) /\
     isEmptyLedger (Ledger (emptyMemory now))) /\
  (forall now f, exists p, loadMemory now f = Returns p) /\
  (forall now m, loadMemory now (Stored (LedgerText m)) = Returns (Ledger m)) /\
  (forall now v, loadMemory now (Stored (OtherJson v)) = Returns (NotLedger v)).
Proof.
  repeat split.
  - destruct H as [->|[->|[text ->]]]; reflexivity.
  - now exists (emptyMemory now).
  - apply loadMemory_total.
Qed.

End DeploymentsFacts.

(** ** The deployment gate *)
Module DetectorFacts.
Import Js JsString Deployments Detector.

Lemma canDeploy_funded : forall balance m t_load t_hour t_minutes,
  MIN_BALANCE_WEI <= balance ->
  canDeploy balance (Stored (LedgerText m)) t_load t_hour t_minutes =
  match deployments m with
  | d :: _ =>
      if t_hour - 60 * 60 * 1000 <? timestamp d then
        Returns {| allowed := false;
                   reason := "Rate limited: Last deployment was "
                             ++ decimal ((t_minutes - timestamp d) / 60000)
                             ++ " minutes ago (wait 60 min)" |}
      else Returns {| allowed := true; reason := "Ready to deploy" |}
  | [] => Returns {| allowed := true; reason := "Ready to deploy" |}
  end.
Proof.
  intros balance m t_load t_hour t_minutes Hb.
  unfold canDeploy, hasSufficientBalance.
  apply Z.leb_le in Hb. rewrite Hb. reflexivity.
Qed.

(** C3. [canDeploy] checks funds first, then the rate limit: a balance below
    0.005 ETH is refused whatever the ledger holds; otherwise a newest record
    stamped within the last 60 minutes is refused with the elapsed minutes in
    the reason (a record 30 minutes old gives a reason with "30 minutes");
    with funds and a newest record 90 minutes old, or an empty ledger, the
    deployment is allowed. *)
Theorem canDeploy_gate :
  MIN_BALANCE_WEI = 5000000000000000 /\
  (forall balance f t_load t_hour t_minutes,
     balance < MIN_BALANCE_WEI ->
     canDeploy balance f t_load t_hour t_minutes =
     Returns {| allowed := false;
                reason := "Insufficient wallet balance (need at least 0.005 ETH)" |}) /\
  (forall balance m d rest t_load t_hour t_minutes,
     MIN_BALANCE_WEI <= balance ->
     deployments m = d :: rest ->
     t_hour - 60 * 60 * 1000 < timestamp d ->
     canDeploy balance (Stored (LedgerText m)) t_load t_hour t_minutes =
     Returns {| allowed := false;
                reason := "Rate limited: Last deployment was "
                          ++ decimal ((t_minutes - timestamp d) / 60000)
                          ++ " minutes ago (wait 60 min)" |}) /\
  (forall balance m d rest t_load now,
     MIN_BALANCE_WEI <= balance ->
     deployments m = d :: rest ->
     timestamp d = now - 30 * 60000 ->
     exists v,
       canDeploy balance (Stored (LedgerText m)) t_load now now = Returns v /\
       allowed v = false /\ includes (reason v) "30 minutes" = true) /\
  (forall balance m d rest t_load now t_minutes,
     MIN_BALANCE_WEI <= balance ->
     deployments m = d :: rest ->
     timestamp d = now - 90 * 60000 ->
     canDeploy balance (Stored (LedgerText m)) t_load now t_minutes =
     Returns {| allowed := true; reason := "Ready to deploy" |}) /\
  (forall balance f t_load t_hour t_minutes,
     MIN_BALANCE_WEI <= balance ->
     f = Missing \/ (exists m, f = Stored (LedgerText m) /\ deployments m = []) ->
     canDeploy balance f t_load t_hour t_minutes =
     Returns {| allowed := true; reason := "Ready to deploy" |}).
Proof.
  split; [reflexivity|]. split; [|split; [|split; [|split]]].
  - intros balance f t_load t_hour t_minutes Hb.
    unfold canDeploy, hasSufficientBalance.
    apply Z.leb_gt in Hb. now rewrite Hb.
  - intros balance m d rest t_load t_hour t_minutes Hb Hd Ht.
    rewrite canDeploy_funded, Hd by assumption.
    apply Z.ltb_lt in Ht. now rewrite Ht.
  - intros balance m d rest t_load now Hb Hd Ht.
    rewrite canDeploy_funded, Hd by assumption.
    assert (Hlt : (now - 60 * 60 * 1000 <? timestamp d) = true)
      by (apply Z.ltb_lt; lia).
    rewrite Hlt. eexists. split; [reflexivity|]. split; [reflexivity|].
    cbn [reason]. replace (now - timestamp d) with (30 * 60000) by lia.
    reflexivity.
  - intros balance m d rest t_load now t_minutes Hb Hd Ht.
    rewrite canDeploy_funded, Hd by assumption.
    assert (Hge : (now - 60 * 60 * 1000 <? timestamp d) = false)
      by (apply Z.ltb_ge; lia).
    now rewrite Hge.
  - intros balance f t_load t_hour t_minutes Hb [->|[m [-> Hm]]].
    + unfold canDeploy, hasSufficientBalance.
      apply Z.leb_le in Hb. now rewrite Hb.
    + now rewrite canDeploy_funded, Hm.
Qed.

End DetectorFacts.

(** ** Lists *)
Module ListFacts.
Import Js.

Lemma findIndex_Some : forall {A} (p : A -> bool) l i,
  findIndex p l = Some i ->
  exists x, nth_error l i = Some x /\ p x = true.
Proof.
  intros A p. induction l as [|a l IH]; intros i H; simpl in H.
  - discriminate.
  - destruct (p a) eqn:Hpa.
    + injection H as <-. now exists a.
    + destruct (findIndex p l) as [j|]; [|discriminate].
      injection H as <-. exact (IH j eq_refl).
Qed.

Lemma findIndex_first : forall {A} (p : A -> bool) l i j x,
  findIndex p l = Some i -> (j < i)%nat -> nth_error l j = Some x -> p x = false.
Proof.
  intros A p. induction l as [|a l IH]; intros i j x H Hj Hx; simpl in H.
  - discriminate.
  - destruct (p a) eqn:Hpa.
    + injection H as <-. lia.
    + destruct (findIndex p l) as [k|] eqn:Hk; [|discriminate].
      injection H as <-. destruct j as [|j]; simpl in Hx.
      * now injection Hx as <-.
      * apply (IH k j x eq_refl); [lia | assumption].
Qed.

Lemma nth_error_update_at_same : forall {A} (g : A -> A) l i x,
  nth_error l i = Some x -> nth_error (update_at i g l) i = Some (g x).
Proof.
  intros A g. induction l as [|a l IH]; intros [|i] x H; simpl in *;
    try discriminate.
  - now injection H as <-.
  - now apply IH.
Qed.

Lemma nth_error_update_at_other : forall {A} (g : A -> A) l i j,
  i <> j -> nth_error (update_at i g l) j = nth_error l j.
Proof.
  intros A g. induction l as [|a l IH]; intros [|i] [|j] H; simpl;
    try reflexivity; try congruence.
  apply IH. congruence.
Qed.

Lemma Forall_update_at : forall {A} (P : A -> Prop) (g : A -> A) l i,
  (forall x, P x -> P (g x)) -> Forall P l -> Forall P (update_at i g l).
Proof.
  intros A P g l i Hg H. revert i.
  induction H as [|a l Ha Hl IH]; intros [|i]; simpl; constructor; auto.
Qed.

Lemma filter_none : forall {A} (p : A -> bool) l,
  Forall (fun x => p x = false) l -> filter p l = [].
Proof.
  intros A p l H. induction H as [|a l Ha Hl IH]; simpl; [reflexivity|].
  now rewrite Ha.
Qed.

End ListFacts.

(** ** The sunset processor *)
Module AutomationFacts.
Import Js JsString StringFacts ListFacts Deployments Lifecycle Automation.

Lemma sunsetReason_embeds : forall metrics,
  includes (sunsetReason metrics) (decimal (Tracker.transferCount metrics)) = true /\
  includes (sunsetReason metrics) (decimal (Tracker.uniqueHolders metrics)) = true /\
  includes (sunsetReason metrics) (decimal (Tracker.engagementScore metrics)) = true.
Proof.
  intros metrics. unfold sunsetReason. repeat split.
  - apply includes_skip, includes_head.
  - do 3 apply includes_skip. apply includes_head.
  - do 5 apply includes_skip. apply includes_head.
Qed.

Lemma mark_fields : forall why d,
  status (mark why d) = Some StatusSunset /\
  Deployments.reason (mark why d) = why /\
  Deployments.address (mark why d) = Deployments.address d /\
  Deployments.name (mark why d) = Deployments.name d /\
  timestamp (mark why d) = timestamp d /\
  sunset (mark why d) = sunset d.
Proof. intros; repeat split. Qed.

(** The run of [processSunsetWith] on a store that holds a ledger. *)
Lemma processSunsetWith_run : forall announce deployment metrics m t_load t_save t_done,
  processSunsetWith announce deployment metrics (Stored (LedgerText m))
    t_load t_save t_done =
  let why := sunsetReason metrics in
  let found :=
    findIndex (fun d => String.eqb (Deployments.address d)
                                   (Deployments.address deployment))
              (deployments m) in
  let f1 :=
    match found with
    | Some i => saveMemory t_save
                  (with_deployments m (update_at i (mark why) (deployments m)))
    | None => Stored (LedgerText m)
    end in
  Returns {|
    file_after := f1;
    effects := match found with Some _ => [WriteMemory f1] | None => [] end
               ++ [AnnounceSunset (Deployments.name deployment) why];
    result := {| address := Deployments.address deployment;
                 name := Deployments.name deployment;
                 reason := why;
                 sunsetAt := t_done;
                 announced := match announce (Deployments.name deployment) "base" why with
                              | Returns _ => true
                              | Throws _ => false
                              end |} |}.
Proof.
  intros. unfold processSunsetWith. cbn [loadMemory existsSync negb readFileSync
    JSON_parse bind try_catch ledger_of]. cbv zeta.
  destruct (findIndex _ (deployments m)); reflexivity.
Qed.

(** C6, as stated, fails: the reason does not embed the third raw metric.
    A record two days old with no transfers, no holders and 2 mentions is
    recommended for sunset with score 10, and the reason written to the
    ledger and returned is "Low engagement: 0 transfers, 0 holders, score:
    10/100", in which the mention count does not occur. *)
Lemma sunset_reason_omits_mentions :
  let d := sampleRecord "0xA" 0 in
  let p := {| Tracker.fetchedTransfers := 0; Tracker.fetchedHolders := 0;
              Tracker.fetchedMentions := 2;
              Tracker.clockAtScore := 172800000;
              Tracker.clockAtReturn := 172800000 |} in
  let metrics := Tracker.analyzeEngagement d p in
  let f := Stored (LedgerText {| version := 1; lastUpdated := 0; deployments := [d] |}) in
  Tracker.recommendation metrics = Tracker.sunset /\
  exists run,
    processSunset true (Farcaster.Accepted "0xcast") d metrics f 0 0 172800000
      = Returns run /\
    reason (result run) = "Low engagement: 0 transfers, 0 holders, score: 10/100" /\
    includes (reason (result run)) (decimal (Tracker.fetchedMentions p)) = false.
Proof.
  cbv zeta. split; [vm_compute; reflexivity|].
  eexists. split; [vm_compute; reflexivity|]. split; vm_compute; reflexivity.
Qed.

(** The announce call of social/farcaster.ts never raises: a failed request
    comes back as a result with [success = false]. *)
Lemma announceSunset_returns : forall signer net tokenName chain why,
  exists c, Farcaster.announceSunset signer net tokenName chain why = Returns c /\
            (Farcaster.success c = true <->
             signer = true /\ exists hash, net = Farcaster.Accepted hash).
Proof.
  intros signer net tokenName chain why.
  unfold Farcaster.announceSunset, Farcaster.postCast.
  destruct signer; cbn [negb].
  - destruct net as [msg|msg|hash]; cbn [try_catch]; eexists; (split; [reflexivity|]);
      cbn [Farcaster.success]; split; try discriminate.
    + intros [_ [h Hh]]; discriminate.
    + intros [_ [h Hh]]; discriminate.
    + intros _. split; [reflexivity | now exists hash].
    + reflexivity.
  - eexists; split; [reflexivity|]. cbn [Farcaster.success].
    split; [discriminate | intros [Hs _]; discriminate].
Qed.

(** With that announce call, [announced] is set on every run, also when the
    cast was not posted. *)
Lemma processSunset_announced_always : forall signer net deployment metrics m t_load t_save t_done,
  exists run,
    processSunset signer net deployment metrics (Stored (LedgerText m))
      t_load t_save t_done = Returns run /\
    announced (result run) = true.
Proof.
  intros. unfold processSunset. rewrite processSunsetWith_run. cbv zeta.
  eexists. split; [reflexivity|]. cbn [result announced].
  destruct (announceSunset_returns signer net (Deployments.name deployment) "base"
              (sunsetReason metrics)) as [c [-> _]].
  reflexivity.
Qed.

(** C6 (amended). For every call of the sunset processor on a stored ledger
    and every behaviour of the announce call: the first record with the
    deployment's address gets status 'sunset' and a reason that embeds the
    transfer count, the unique-holder count and the score; the ledger is
    written before the announce call is attempted; the written file does not
    depend on what the announce call does, and reloading it shows the record
    with status 'sunset'; the result records address, name, reason and the
    sunset timestamp, and [announced] is false when the announce call raises. *)
Theorem processSunset_persists_then_announces :
  forall announce deployment metrics m t_load t_save t_done,
  let f := Stored (LedgerText m) in
  let why := sunsetReason metrics in
  let tokenName := Deployments.name deployment in
  exists run,
    processSunsetWith announce deployment metrics f t_load t_save t_done
      = Returns run /\
    (* the result *)
    result run = {| address := Deployments.address deployment;
                    name := tokenName;
                    reason := why;
                    sunsetAt := t_done;
                    announced := match announce tokenName "base" why with
                                 | Returns _ => true
                                 | Throws _ => false
                                 end |} /\
    (* the reason embeds two raw counts and the score *)
    includes why (decimal (Tracker.transferCount metrics)) = true /\
    includes why (decimal (Tracker.uniqueHolders metrics)) = true /\
    includes why (decimal (Tracker.engagementScore metrics)) = true /\
    (* the written file is the same under any other announce call *)
    (forall announce', exists run',
       processSunsetWith announce' deployment metrics f t_load t_save t_done
         = Returns run' /\
       file_after run' = file_after run /\ effects run' = effects run) /\
    match findIndex (fun d => String.eqb (Deployments.address d)
                                         (Deployments.address deployment))
                    (deployments m) with
    | Some i =>
        (* written first, announced second *)
        effects run = [WriteMemory (file_after run); AnnounceSunset tokenName why] /\
        (* reloading shows the matching record retired, the others as before *)
        forall now, exists m' d',
          loadMemory now (file_after run) = Returns (Ledger m') /\
          nth_error (deployments m') i = Some d' /\
          Deployments.address d' = Deployments.address deployment /\
          status d' = Some StatusSunset /\
          Deployments.reason d' = why /\
          forall j, j <> i ->
            nth_error (deployments m') j = nth_error (deployments m) j
    | None =>
        file_after run = f /\ effects run = [AnnounceSunset tokenName why]
    end.
Proof.
  intros announce deployment metrics m t_load t_save t_done f why tokenName.
  subst f. rewrite processSunsetWith_run. cbv zeta. fold why tokenName.
  eexists. split; [reflexivity|]. split; [reflexivity|].
  destruct (sunsetReason_embeds metrics) as [Ht [Hh Hs]].
  split; [exact Ht|]. split; [exact Hh|]. split; [exact Hs|].
  split.
  - intros announce'. rewrite processSunsetWith_run. cbv zeta.
    eexists. split; [reflexivity|]. split; reflexivity.
  - cbn [file_after effects].
    destruct (findIndex _ (deployments m)) as [i|] eqn:Hi.
    + split; [reflexivity|]. intros now.
      destruct (findIndex_Some _ _ _ Hi) as [x [Hx Hpx]].
      apply String.eqb_eq in Hpx.
      exists {| version := version m; lastUpdated := t_save;
                deployments := update_at i (mark why) (deployments m) |}.
      exists (mark why x).
      split; [reflexivity|]. cbn [deployments].
      split; [now apply nth_error_update_at_same|].
      split; [exact Hpx|]. split; [reflexivity|]. split; [reflexivity|].
      intros j Hj. apply nth_error_update_at_other. congruence.
    + split; reflexivity.
Qed.

End AutomationFacts.

(** ** The two status reports *)
Module StatsFacts.
Import Js ListFacts Deployments Lifecycle Automation.

Local Open Scope nat_scope.

Lemma count_active_and_sunset : forall l,
  countIf (fun d => negb (flagged d)) l + countIf retiredByStatus l
  + countIf (fun d => flagged d && negb (retiredByStatus d))%bool l
  = List.length l
    + countIf (fun d => retiredByStatus d && negb (flagged d))%bool l.
Proof.
  unfold countIf. induction l as [|d l IH]; [reflexivity|].
  cbn [filter List.length]. destruct (flagged d), (retiredByStatus d);
    cbn [negb andb List.length]; lia.
Qed.

Lemma countIf_pos : forall {A} (p : A -> bool) l x,
  In x l -> p x = true -> 0 < countIf p l.
Proof.
  intros A p l x Hin Hp. unfold countIf.
  assert (H : In x (filter p l)) by (apply filter_In; auto).
  destruct (filter p l); [contradiction | simpl; lia].
Qed.

Lemma countIf_zero : forall {A} (p : A -> bool) l,
  (forall x, In x l -> p x = false) -> countIf p l = 0.
Proof.
  intros A p l H. unfold countIf. rewrite filter_none; [reflexivity|].
  apply Forall_forall. exact H.
Qed.

(** The sunset processor leaves exactly the state in question: status
    'sunset', legacy flag untouched. *)
Lemma mark_retired_unflagged : forall why d,
  retiredByStatus (mark why d) = true /\ flagged (mark why d) = flagged d.
Proof. intros; split; reflexivity. Qed.

(** C10, as stated, fails: in the ledger [twoRetired] the first record has
    status 'sunset' and no legacy flag, and is counted as active; the second
    carries only the legacy flag. The active count plus the sunset total is
    1 + 1 = 2, the number of records, and does not exceed it. *)
Lemma stats_sum_can_equal_total :
  let f := Stored (LedgerText twoRetired) in
  (exists d, In d (deployments twoRetired) /\
             status d = Some StatusSunset /\ sunset d = None) /\
  getDeploymentStats 0 f =
    Returns {| Stats.total := 2; Stats.active := 1; Stats.sunset := 1;
               Stats.byChain := [("base"%string, 2)] |} /\
  getSunsetStats 0 0 f =
    Returns {| SunsetStats.total := 1; SunsetStats.thisWeek := 1;
               SunsetStats.thisMonth := 1 |} /\
  ~ (2 < 1 + 1).
Proof.
  cbv zeta. split; [|split; [|split]].
  - eexists. split; [left; reflexivity|]. split; reflexivity.
  - reflexivity.
  - reflexivity.
  - lia.
Qed.

(** C10 (amended). [getDeploymentStats] counts a record as active iff its
    legacy flag is falsy and [getSunsetStats] counts the records with status
    'sunset', so a record with status 'sunset' and no flag is counted by
    both: it is among the records reported active, and
      active + sunset total + #(flag only) = records + #(status only).
    Hence in a ledger where every flagged record also has status 'sunset',
    one such record makes active + sunset total exceed the number of
    records. *)
Theorem stats_count_retired_twice : forall now t_load t_now m,
  let f := Stored (LedgerText m) in
  let l := deployments m in
  exists s t,
    getDeploymentStats now f = Returns s /\
    getSunsetStats t_load t_now f = Returns t /\
    Stats.total s = List.length l /\
    Stats.active s = countIf (fun d => negb (flagged d)) l /\
    SunsetStats.total t = countIf retiredByStatus l /\
    (forall d, In d l -> retiredByStatus d = true -> flagged d = false ->
               In d (filter (fun d => negb (flagged d)) l)) /\
    Stats.active s + SunsetStats.total t
      + countIf (fun d => flagged d && negb (retiredByStatus d))%bool l
    = Stats.total s
      + countIf (fun d => retiredByStatus d && negb (flagged d))%bool l /\
    ((forall d, In d l -> flagged d = true -> retiredByStatus d = true) ->
     (exists d, In d l /\ retiredByStatus d = true /\ flagged d = false) ->
     Stats.total s < Stats.active s + SunsetStats.total t).
Proof.
  intros now t_load t_now m f l. subst f.
  eexists. eexists.
  split; [reflexivity|]. split; [reflexivity|].
  cbn [Stats.total Stats.active SunsetStats.total]. fold l.
  split; [reflexivity|]. split; [reflexivity|]. split; [reflexivity|].
  split; [|split].
  - intros d Hin _ Hf. apply filter_In. split; [assumption | now rewrite Hf].
  - apply count_active_and_sunset.
  - intros Hall [d [Hin [Hr Hf]]].
    pose proof (count_active_and_sunset l) as Hc.
    assert (H0 : countIf (fun d => flagged d && negb (retiredByStatus d))%bool l = 0).
    { apply countIf_zero. intros x Hx. destruct (flagged x) eqn:Hfx; [|reflexivity].
      now rewrite (Hall x Hx Hfx). }
    assert (H1 : 0 < countIf (fun d => retiredByStatus d && negb (flagged d))%bool l).
    { apply (countIf_pos _ l d Hin). now rewrite Hr, Hf. }
    unfold countIf, retiredByStatus in *. lia.
Qed.

End StatsFacts.

(** ** Which records the engagement check analyses *)
Module LifecycleFacts.
Import Js ListFacts Deployments Lifecycle.

Lemma recordOf_not_active : forall config r,
  Tracker.statusIs StatusActive (Deployer.recordOf config r) = false.
Proof. reflexivity. Qed.

Lemma loadMemory_noneActive : forall now f,
  noneActive f ->
  exists m, loadMemory now f = Returns (Ledger m) /\
            Forall (fun d => Tracker.statusIs StatusActive d = false) (deployments m).
Proof.
  intros now [| |[text|m|v]] H; try contradiction.
  - exists (emptyMemory now). split; [reflexivity | constructor].
  - exists m. split; [reflexivity | exact H].
Qed.

Lemma deployContract_success : forall config balance tx t_result t_load t_save f f' r,
  noneActive f ->
  Deployer.deployContract config balance tx t_result t_load t_save f = Returns (f', r) ->
  exists m,
    loadMemory t_load f = Returns (Ledger m) /\
    f' = saveMemory t_save (unshift (Deployer.recordOf config r) m).
Proof.
  intros config balance tx t_result t_load t_save f f' r Hf H.
  destruct (loadMemory_noneActive t_load f Hf) as [m [Hm _]].
  exists m. split; [exact Hm|].
  unfold Deployer.deployContract in H.
  destruct (Deployer.explorerBase (Deployer.chainId config)) as [url|e] eqn:Hc;
    cbn [bind] in H; [|discriminate].
  destruct (negb _); [discriminate|].
  destruct tx as [msg|hash [addr|]]; try discriminate.
  unfold Deployer.getExplorerAddressUrl, Deployer.getExplorerTxUrl in H.
  rewrite Hc in H. cbn [bind] in H.
  unfold saveDeployment in H. rewrite Hm in H. cbn [bind ledger_of] in H.
  now injection H as <- <-.
Qed.

(** Every reachable store is a missing file or a ledger without a record
    of status 'active'. *)
Lemma reachable_noneActive : forall f, reachable f -> noneActive f.
Proof.
  intros f H.
  induction H as [ | f config balance tx t_result t_load t_save f' r Hr IH Hd
                   | f announce d metrics t_load t_save t_done run Hr IH Hp
                   | f t_load t_save addr f' Hr IH Hs ].
  - exact I.
  - destruct (deployContract_success _ _ _ _ _ _ _ _ _ IH Hd) as [m [Hm ->]].
    destruct (loadMemory_noneActive t_load f IH) as [m0 [Hm0 Hall]].
    rewrite Hm in Hm0. injection Hm0 as <-.
    cbn. constructor; [apply recordOf_not_active | exact Hall].
  - destruct (loadMemory_noneActive t_load f IH) as [m [Hm Hall]].
    unfold Automation.processSunsetWith in Hp. rewrite Hm in Hp.
    cbn [bind ledger_of] in Hp. cbv zeta in Hp.
    destruct (findIndex _ (deployments m)) as [i|];
      injection Hp as <-; cbn [Automation.file_after].
    + cbn. apply Forall_update_at; [|exact Hall]. reflexivity.
    + exact IH.
  - destruct (loadMemory_noneActive t_load f IH) as [m [Hm Hall]].
    unfold sunsetDeployment in Hs. rewrite Hm in Hs. cbn [bind ledger_of] in Hs.
    destruct (findIndex _ (deployments m)) as [i|]; injection Hs as <-.
    + cbn. apply Forall_update_at; [|exact Hall].
      intros x Hx. destruct x; exact Hx.
    + exact IH.
Qed.

(** C5 (the code departs from it). On every store reachable by deploy and
    sunset operations, a successful [deployContract] puts its record at the
    head of the ledger, where [getActiveDeployments] reports it as active;
    but the record carries no status, so [analyzeAllDeployments], which
    selects the records with status 'active', analyses no record at all. *)
Theorem deployed_record_is_not_analysed :
  forall f config balance tx t_result t_load t_save f' r observe now,
  reachable f ->
  Deployer.deployContract config balance tx t_result t_load t_save f = Returns (f', r) ->
  (exists m', f' = Stored (LedgerText m') /\
              hd_error (deployments m') = Some (Deployer.recordOf config r) /\
              ~ In (Deployer.recordOf config r) (Tracker.activeDeployments m')) /\
  (exists active, getActiveDeployments now f' = Returns active /\
                  In (Deployer.recordOf config r) active) /\
  Tracker.analyzeAllDeployments observe now f' = Returns [].
Proof.
  intros f config balance tx t_result t_load t_save f' r observe now Hr Hd.
  pose proof (reachable_noneActive _ (reach_deploy _ _ _ _ _ _ _ _ _ Hr Hd)) as Hn.
  destruct (deployContract_success _ _ _ _ _ _ _ _ _ (reachable_noneActive _ Hr) Hd)
    as [m [Hm ->]].
  cbn in Hn. split; [|split].
  - eexists. split; [reflexivity|]. split; [reflexivity|].
    unfold Tracker.activeDeployments. rewrite filter_none by exact Hn.
    intros [].
  - eexists. split; [reflexivity|]. cbn. now left.
  - unfold Tracker.analyzeAllDeployments, saveMemory.
    rewrite DeploymentsFacts.loadMemory_ledger. cbn [bind ledger_of].
    unfold Tracker.activeDeployments. now rewrite filter_none by exact Hn.
Qed.

(** The first deployment on a fresh store: recorded, reported active, and
    not analysed. *)
Lemma deployed_record_is_not_analysed_witness :
  let config := {| Deployer.name := "Moltchain Contract";
                   Deployer.chainId := "base";
                   Deployer.reason := Some "trending narrative"%string |} in
  let tx := Deployer.Mined "0xhash" (Some "0xA"%string) in
  let r := {| Deployer.address := "0xA";
              Deployer.transactionHash := "0xhash";
              Deployer.explorerUrl := "https://basescan.org/address/0xA";
              Deployer.txExplorerUrl := "https://basescan.org/tx/0xhash";
              Deployer.resultChainId := "base";
              Deployer.timestamp := 1000 |} in
  let f' := saveMemory 1000 (unshift (Deployer.recordOf config r) (emptyMemory 1000)) in
  let observe := fun _ : DeploymentRecord =>
    {| Tracker.fetchedTransfers := 0; Tracker.fetchedHolders := 0;
       Tracker.fetchedMentions := 0; Tracker.clockAtScore := 2000;
       Tracker.clockAtReturn := 2000 |} in
  reachable Missing /\
  Deployer.deployContract config (10 ^ 18) tx 1000 1000 1000 Missing = Returns (f', r) /\
  (exists m', f' = Stored (LedgerText m') /\
              hd_error (deployments m') = Some (Deployer.recordOf config r) /\
              ~ In (Deployer.recordOf config r) (Tracker.activeDeployments m')) /\
  (exists active, getActiveDeployments 2000 f' = Returns active /\
                  In (Deployer.recordOf config r) active) /\
  Tracker.analyzeAllDeployments observe 2000 f' = Returns [].
Proof.
  cbv zeta. split; [exact reach_start|]. split; [reflexivity|].
  exact (deployed_record_is_not_analysed Missing
           {| Deployer.name := "Moltchain Contract";
              Deployer.chainId := "base";
              Deployer.reason := Some "trending narrative"%string |}
           (10 ^ 18) (Deployer.Mined "0xhash" (Some "0xA"%string))
           1000 1000 1000 _ _ _ 2000 reach_start eq_refl).
Defined.

End LifecycleFacts.

(** ** Engagement score and recommendation *)
Module TrackerFacts.
Import Js JsNumber Deployments Lifecycle Tracker.

Local Open Scope float_scope.

Lemma graceOverride_young : forall days r,
  (days <? 1) = true ->
  graceOverride days r <> sunset /\ (r = sunset -> graceOverride days r = keep).
Proof.
  intros days r H. unfold graceOverride. rewrite H.
  destruct r; cbn; split; congruence.
Qed.

Lemma analyzeEngagement_recommendation : forall deployment p,
  recommendation (analyzeEngagement deployment p) =
  graceOverride (daysSince (clockAtScore p) deployment)
    (fst (thresholds
            (calculateEngagementScore (number_of_Z (fetchedTransfers p))
               (number_of_Z (fetchedHolders p)) (number_of_Z (fetchedMentions p))
               (daysSince (clockAtScore p) deployment)))).
Proof.
  intros deployment p. unfold analyzeEngagement. cbv zeta.
  destruct (thresholds _) as [r b]. reflexivity.
Qed.

(** C2. When [daysSinceDeployment < 1], the recommendation that
    [analyzeEngagement] returns is never 'sunset', whatever the fetched
    counts: where the threshold rule yields 'sunset', the result is 'keep'. *)
Theorem grace_period_never_sunset : forall deployment p,
  (daysSince (clockAtScore p) deployment <? 1) = true ->
  recommendation (analyzeEngagement deployment p) <> sunset /\
  (fst (thresholds
          (calculateEngagementScore (number_of_Z (fetchedTransfers p))
             (number_of_Z (fetchedHolders p)) (number_of_Z (fetchedMentions p))
             (daysSince (clockAtScore p) deployment))) = sunset ->
   recommendation (analyzeEngagement deployment p) = keep).
Proof.
  intros deployment p H. rewrite analyzeEngagement_recommendation.
  now apply graceOverride_young.
Qed.

(** A record one hour old with no activity at all scores 0 and is kept. *)
Lemma grace_period_never_sunset_witness :
  let d := sampleRecord "0xA" 0 in
  let p := {| fetchedTransfers := 0; fetchedHolders := 0; fetchedMentions := 0;
              clockAtScore := 3600000; clockAtReturn := 3600000 |} in
  (daysSince (clockAtScore p) d <? 1) = true /\
  engagementScore (analyzeEngagement d p) = 0%Z /\
  recommendation (analyzeEngagement d p) <> sunset /\
  (fst (thresholds
          (calculateEngagementScore (number_of_Z (fetchedTransfers p))
             (number_of_Z (fetchedHolders p)) (number_of_Z (fetchedMentions p))
             (daysSince (clockAtScore p) d))) = sunset ->
   recommendation (analyzeEngagement d p) = keep).
Proof.
  cbv zeta. split; [vm_compute; reflexivity|]. split; [vm_compute; reflexivity|].
  exact (grace_period_never_sunset (sampleRecord "0xA" 0)
           {| fetchedTransfers := 0; fetchedHolders := 0; fetchedMentions := 0;
              clockAtScore := 3600000; clockAtReturn := 3600000 |} eq_refl).
Defined.

End TrackerFacts.

(** ** The ledger operations *)
Module LedgerOps.
Import Js ListFacts Deployments Lifecycle Report.

Lemma loadMemory_fresh_or_ledger : forall now f,
  (forall v, f <> Stored (OtherJson v)) ->
  exists m, loadMemory now f = Returns (Ledger m) /\ deployments m = recordsOf f.
Proof.
  intros now [| |[text|m|v]] H.
  - now exists (emptyMemory now).
  - now exists (emptyMemory now).
  - now exists (emptyMemory now).
  - now exists m.
  - now elim (H v).
Qed.

(** X1. [saveDeployment] puts the record in front of the records already
    stored and stamps the file; [getLatestDeployment] then returns it. A
    missing file, or one whose text is not JSON, is replaced by a ledger
    holding just this record; on JSON without a [deployments] member the
    call raises a TypeError and writes nothing. *)
Theorem saveDeployment_newest_first : forall t_load t_save now f d,
  (Shape.ledgerFile f = true ->
   exists m',
     saveDeployment t_load t_save f d = Returns (Stored (LedgerText m')) /\
     deployments m' = d :: recordsOf f /\
     lastUpdated m' = t_save /\
     getLatestDeployment now (Stored (LedgerText m')) = Returns (Some d)) /\
  (forall v, f = Stored (OtherJson v) -> Shape.lacksDeployments v = true ->
     saveDeployment t_load t_save f d = Throws TypeError).
Proof.
  intros t_load t_save now f d. split.
  - destruct f as [| |[text|m|v]]; intros Hf; try discriminate Hf;
      eexists; (split; [reflexivity|]); repeat split.
  - intros v -> _. reflexivity.
Qed.

Lemma findIndex_update_at : forall {A} (p : A -> bool) (g : A -> A) l i,
  (forall x, p (g x) = p x) -> findIndex p (update_at i g l) = findIndex p l.
Proof.
  intros A p g. induction l as [|a l IH]; intros [|i] Hg; simpl; try reflexivity.
  - now rewrite Hg.
  - now rewrite IH.
Qed.

Lemma length_update_at : forall {A} (g : A -> A) l i,
  List.length (update_at i g l) = List.length l.
Proof.
  intros A g. induction l as [|a l IH]; intros [|i]; simpl; auto.
Qed.

Lemma map_update_at_same : forall {A B} (h : A -> B) (g : A -> A) l i,
  (forall x, h (g x) = h x) -> map h (update_at i g l) = map h l.
Proof.
  intros A B h g. induction l as [|a l IH]; intros [|i] Hg; simpl; try reflexivity.
  - now rewrite Hg.
  - now rewrite IH.
Qed.

Lemma length_filter_update_at : forall {A} (p : A -> bool) (g : A -> A) l i,
  (forall x, p (g x) = p x) ->
  List.length (filter p (update_at i g l)) = List.length (filter p l).
Proof.
  intros A p g. induction l as [|a l IH]; intros [|i] Hg; cbn [update_at filter];
    try reflexivity.
  - rewrite Hg. destruct (p a); reflexivity.
  - destruct (p a); cbn [List.length]; now rewrite IH.
Qed.

(** X2. The legacy [sunsetDeployment] sets the flag of the first record
    with the address and of no other; the flagged record is no longer among
    [getActiveDeployments]; it leaves every status as it was, so the status
    based selection of the engagement check is unchanged; and for an address
    that no record has, the file is not rewritten. *)
Theorem sunsetDeployment_flags_first : forall t_load t_save now m addr,
  let f := Stored (LedgerText m) in
  match findIndex (fun d => String.eqb (address d) addr) (deployments m) with
  | None => sunsetDeployment t_load t_save f addr = Returns f
  | Some i =>
      exists m' d,
        sunsetDeployment t_load t_save f addr = Returns (Stored (LedgerText m')) /\
        nth_error (deployments m) i = Some d /\ address d = addr /\
        (forall j x, (j < i)%nat -> nth_error (deployments m) j = Some x ->
                     address x <> addr) /\
        nth_error (deployments m') i = Some (set_sunset d) /\
        (forall j, j <> i ->
           nth_error (deployments m') j = nth_error (deployments m) j) /\
        List.length (deployments m') = List.length (deployments m) /\
        (exists active,
           getActiveDeployments now (Stored (LedgerText m')) = Returns active /\
           ~ In (set_sunset d) active) /\
        List.length (Tracker.activeDeployments m') =
          List.length (Tracker.activeDeployments m) /\
        map status (deployments m') = map status (deployments m)
  end.
Proof.
  intros t_load t_save now m addr f. subst f.
  unfold sunsetDeployment. rewrite DeploymentsFacts.loadMemory_ledger.
  cbn [bind ledger_of].
  destruct (findIndex _ (deployments m)) as [i|] eqn:Hi; [|reflexivity].
  destruct (findIndex_Some _ _ _ Hi) as [d [Hd Hp]].
  apply String.eqb_eq in Hp.
  eexists. exists d. split; [reflexivity|]. cbn [deployments with_deployments].
  split; [exact Hd|]. split; [exact Hp|]. split.
  { intros j x Hj Hx E. pose proof (findIndex_first _ _ _ _ _ Hi Hj Hx) as Hf.
    cbv beta in Hf. apply String.eqb_neq in Hf. contradiction. }
  split; [now apply nth_error_update_at_same|].
  split; [intros j Hj; apply nth_error_update_at_other; congruence|].
  split; [apply length_update_at|].
  split.
  { eexists. split; [reflexivity|]. cbn [deployments].
    intros Hin. apply filter_In in Hin. destruct Hin as [_ Hf]. discriminate Hf. }
  split.
  { unfold Tracker.activeDeployments. cbn [deployments].
    apply length_filter_update_at. intros x. destruct x. reflexivity. }
  apply map_update_at_same. now intros [].
Qed.

Lemma lookup_bump : forall k c acc,
  lookup c (bump k acc) =
  if String.eqb c k
  then Some (S (match lookup c acc with Some n => n | None => O end))
  else lookup c acc.
Proof.
  intros k c. induction acc as [|[k' n] acc IH]; cbn [bump lookup].
  - destruct (String.eqb c k); reflexivity.
  - destruct (String.eqb k k') eqn:Hk; cbn [lookup].
    + apply String.eqb_eq in Hk. subst k'.
      destruct (String.eqb c k); reflexivity.
    + destruct (String.eqb c k') eqn:Hc.
      * apply String.eqb_eq in Hc. subst k'.
        rewrite String.eqb_sym in Hk. now rewrite Hk.
      * exact IH.
Qed.

Lemma lookup_fold_bump : forall c l acc,
  (match lookup c (fold_left (fun a d => bump (chainId d) a) l acc) with
   | Some n => n | None => O end
   = (match lookup c acc with Some n => n | None => O end + onChain c l)%nat) /\
  (lookup c (fold_left (fun a d => bump (chainId d) a) l acc) = None <->
   lookup c acc = None /\ onChain c l = O).
Proof.
  intros c. unfold onChain. induction l as [|d l IH]; intros acc; cbn [fold_left filter].
  - cbn [List.length]. split; [lia | tauto].
  - destruct (IH (bump (chainId d) acc)) as [IH1 IH2].
    rewrite IH1, IH2, lookup_bump. rewrite (String.eqb_sym (chainId d) c).
    destruct (String.eqb c (chainId d)); cbn [List.length].
    + split; [lia|]. split; [intros [H _]; discriminate | intros [_ H]; discriminate].
    + split; [lia | tauto].
Qed.

Lemma keys_bump : forall k acc,
  NoDup (map fst acc) -> NoDup (map fst (bump k acc)) /\
  (forall c, In c (map fst (bump k acc)) -> c = k \/ In c (map fst acc)).
Proof.
  intros k. induction acc as [|[k' n] acc IH]; intros H; cbn [bump map fst].
  - split; [constructor; [intros []|constructor] | intros c [<-|[]]; now left].
  - inversion H as [|x xs Hx Hxs]; subst.
    destruct (String.eqb k k') eqn:Hk; cbn [map fst].
    + split; [exact H | intros c Hc; now right].
    + destruct (IH Hxs) as [IH1 IH2]. split.
      * constructor; [|exact IH1]. intros Hin.
        destruct (IH2 _ Hin) as [->|Hin']; [|contradiction].
        rewrite String.eqb_refl in Hk. discriminate.
      * intros c [<-|Hc]; [right; now left|].
        destruct (IH2 _ Hc) as [->|Hin']; [now left | right; now right].
Qed.

Lemma keys_fold_bump : forall l acc,
  NoDup (map fst acc) ->
  NoDup (map fst (fold_left (fun a (d : DeploymentRecord) => bump (chainId d) a) l acc)).
Proof.
  induction l as [|d l IH]; intros acc H; cbn [fold_left]; [exact H|].
  apply IH. now apply keys_bump.
Qed.

Lemma length_filter_partition : forall {A} (p : A -> bool) l,
  List.length l =
  (List.length (filter (fun x => negb (p x)) l) + List.length (filter p l))%nat.
Proof.
  intros A p. induction l as [|a l IH]; [reflexivity|].
  cbn [filter]. destruct (p a); cbn [negb List.length]; lia.
Qed.

(** X3. The report of [getDeploymentStats] is consistent with the ledger:
    by the legacy flag every record is either active or sunset, so
    total = active + sunset; and for every chain id that is not a name
    inherited from [Object.prototype], the count in [byChain] is the number
    of records [getDeploymentsByChain] returns for that chain, with no entry
    when there is none, whatever the chain ids of the other records. *)
Theorem getDeploymentStats_consistent : forall now m,
  let f := Stored (LedgerText m) in
  exists s,
    getDeploymentStats now f = Returns s /\
    Stats.total s = List.length (deployments m) /\
    Stats.total s = (Stats.active s + Stats.sunset s)%nat /\
    forall chain,
      Shape.inherited chain = false ->
      exists onThatChain,
        getDeploymentsByChain now f chain = Returns onThatChain /\
        (forall d, In d onThatChain <-> In d (deployments m) /\ chainId d = chain) /\
        lookup chain (Stats.byChain s) =
          match List.length onThatChain with
          | O => None
          | S n => Some (S n)
          end.
Proof.
  intros now m f. subst f. eexists. split; [reflexivity|].
  cbn [Stats.total Stats.active Stats.sunset Stats.byChain].
  split; [reflexivity|]. split; [apply length_filter_partition|].
  intros chain _. eexists. split; [reflexivity|]. split.
  - intros d. rewrite filter_In, String.eqb_eq. tauto.
  - destruct (lookup_fold_bump chain (deployments m) []) as [H1 H2].
    cbn [lookup] in H1, H2. unfold onChain in H1, H2.
    destruct (List.length (filter _ (deployments m))) as [|n] eqn:Hn.
    + apply H2. auto.
    + destruct (lookup chain _) as [k|] eqn:Hk.
      * f_equal. lia.
      * destruct (proj1 H2 eq_refl) as [_ H0]. discriminate.
Qed.

(** X4. [getSunsetStats] counts are nested: a record counted for this week
    is counted for this month, and both are among the records with status
    'sunset'; the total is at most the number of records. *)
Theorem getSunsetStats_nested : forall t_load now m,
  exists t,
    Automation.getSunsetStats t_load now (Stored (LedgerText m)) = Returns t /\
    (Automation.SunsetStats.thisWeek t <= Automation.SunsetStats.thisMonth t)%nat /\
    (Automation.SunsetStats.thisMonth t <= Automation.SunsetStats.total t)%nat /\
    (Automation.SunsetStats.total t <= List.length (deployments m))%nat.
Proof.
  intros t_load now m. eexists. split; [reflexivity|].
  cbn [Automation.SunsetStats.thisWeek Automation.SunsetStats.thisMonth
       Automation.SunsetStats.total].
  set (l := filter (Tracker.statusIs StatusSunset) (deployments m)).
  assert (Hsub : forall (p q : DeploymentRecord -> bool) xs,
            (forall x, p x = true -> q x = true) ->
            (List.length (filter p xs) <= List.length (filter q xs))%nat).
  { intros p q xs Hpq. induction xs as [|x xs IH]; [reflexivity|].
    cbn [filter]. destruct (p x) eqn:Hp.
    - rewrite (Hpq x Hp). cbn [List.length]. lia.
    - destruct (q x); cbn [List.length]; lia. }
  split; [|split].
  - apply Hsub. intros x Hx. apply Z.ltb_lt in Hx. apply Z.ltb_lt. lia.
  - rewrite <- (filter_length_le (fun d => now - 30 * 24 * 60 * 60 * 1000 <? timestamp d) l).
    reflexivity.
  - apply filter_length_le.
Qed.

End LedgerOps.

(** ** The gate and the deployer together *)
Module GateAndDeploy.
Import Js ListFacts Deployments Lifecycle Report Detector.

Lemma canDeploy_on_ledger : forall balance m t_load t_hour t_minutes,
  exists v,
    canDeploy balance (Stored (LedgerText m)) t_load t_hour t_minutes = Returns v /\
    (allowed v = true <->
     MIN_BALANCE_WEI <= balance /\
     match deployments m with
     | [] => True
     | newest :: _ => timestamp newest <= t_hour - 60 * 60 * 1000
     end).
Proof.
  intros balance m t_load t_hour t_minutes.
  destruct (Z_lt_le_dec balance MIN_BALANCE_WEI) as [Hb|Hb].
  - unfold canDeploy, hasSufficientBalance.
    apply Z.leb_gt in Hb. rewrite Hb. eexists. split; [reflexivity|].
    cbn [allowed]. apply Z.leb_gt in Hb. split; [discriminate | lia].
  - rewrite DetectorFacts.canDeploy_funded by exact Hb.
    destruct (deployments m) as [|d rest].
    + eexists. split; [reflexivity|]. cbn [allowed]. split; auto.
    + destruct (t_hour - 60 * 60 * 1000 <? timestamp d) eqn:Ht;
        eexists; (split; [reflexivity|]); cbn [allowed].
      * apply Z.ltb_lt in Ht. split; [discriminate | lia].
      * apply Z.ltb_ge in Ht. split; auto.
Qed.

(** X5. On a store that holds or yields a ledger, [canDeploy] allows a
    deployment exactly when the balance reaches 0.005 ETH and the newest
    record, if there is one, is stamped no later than 60 minutes before the
    clock read: a record exactly 60 minutes old no longer blocks, a record
    stamped in the future does. Only the newest record is looked at. On JSON
    without a [deployments] member a funded call raises a TypeError. *)
Theorem canDeploy_allowed_iff : forall balance f t_load t_hour t_minutes,
  match f with
  | Stored (OtherJson v) =>
      Shape.lacksDeployments v = true ->
      MIN_BALANCE_WEI <= balance ->
      canDeploy balance f t_load t_hour t_minutes = Throws TypeError
  | _ =>
      exists v,
        canDeploy balance f t_load t_hour t_minutes = Returns v /\
        (allowed v = true <->
         MIN_BALANCE_WEI <= balance /\
         match recordsOf f with
         | [] => True
         | newest :: _ => timestamp newest <= t_hour - 60 * 60 * 1000
         end)
  end.
Proof.
  intros balance f t_load t_hour t_minutes.
  assert (Hlow : balance < MIN_BALANCE_WEI ->
            exists v, canDeploy balance f t_load t_hour t_minutes = Returns v /\
                      allowed v = false).
  { intros Hb. unfold canDeploy, hasSufficientBalance.
    apply Z.leb_gt in Hb. rewrite Hb. eexists. split; reflexivity. }
  assert (Hfresh : MIN_BALANCE_WEI <= balance ->
            loadMemory t_load f = Returns (Ledger (emptyMemory t_load)) ->
            canDeploy balance f t_load t_hour t_minutes =
            Returns {| allowed := true; reason := "Ready to deploy" |}).
  { intros Hb Hl. unfold canDeploy, hasSufficientBalance.
    apply Z.leb_le in Hb. rewrite Hb, Hl. reflexivity. }
  destruct f as [| |[text|m|v]].
  1-3: destruct (Z_lt_le_dec balance MIN_BALANCE_WEI) as [Hb|Hb];
    [ destruct (Hlow Hb) as [v [Hv Ha]]; exists v; split; [exact Hv|];
      rewrite Ha; split; [discriminate | lia]
    | eexists; split; [apply Hfresh; [exact Hb | reflexivity]|];
      cbn [allowed recordsOf]; split; auto ].
  - exact (canDeploy_on_ledger balance m t_load t_hour t_minutes).
  - intros _ Hb. unfold canDeploy, hasSufficientBalance.
    apply Z.leb_le in Hb. now rewrite Hb.
Qed.

Lemma deployContract_inv : forall config balance tx t_result t_load t_save f f' r,
  Deployer.deployContract config balance tx t_result t_load t_save f = Returns (f', r) ->
  Deployer.chainId config = "base"%string /\
  Deployer.MIN_DEPLOY_WEI <= balance /\
  tx = Deployer.Mined (Deployer.transactionHash r) (Some (Deployer.address r)) /\
  r = {| Deployer.address := Deployer.address r;
         Deployer.transactionHash := Deployer.transactionHash r;
         Deployer.explorerUrl :=
           ("https://basescan.org/address/" ++ Deployer.address r)%string;
         Deployer.txExplorerUrl :=
           ("https://basescan.org/tx/" ++ Deployer.transactionHash r)%string;
         Deployer.resultChainId := "base";
         Deployer.timestamp := t_result |} /\
  (forall v, f <> Stored (OtherJson v)) /\
  f' = Stored (LedgerText {| version := match f with
                                        | Stored (LedgerText m) => version m
                                        | _ => 1
                                        end;
                             lastUpdated := t_save;
                             deployments := Deployer.recordOf config r :: recordsOf f |}).
Proof.
  intros config balance tx t_result t_load t_save f f' r H.
  unfold Deployer.deployContract, Deployer.getExplorerAddressUrl,
    Deployer.getExplorerTxUrl, Deployer.explorerBase in H.
  destruct (String.eqb (Deployer.chainId config) "base") eqn:Hc;
    cbn [bind] in H; [|discriminate].
  apply String.eqb_eq in Hc.
  destruct (Deployer.MIN_DEPLOY_WEI <=? balance) eqn:Hb; cbn [negb] in H;
    [|discriminate].
  apply Z.leb_le in Hb.
  destruct tx as [msg|hash [addr|]]; try discriminate.
  unfold saveDeployment in H.
  destruct f as [| |[text|m|v]]; cbn in H; try discriminate;
    injection H as <- <-; rewrite Hc; cbn;
    (repeat split; try assumption; try reflexivity; intros v0; discriminate).
Qed.

(** X6. On a missing file, a file whose text is not JSON, or a ledger,
    [deployContract] succeeds exactly when the chain is 'base', the balance
    reaches 0.00001 ETH and the transaction is mined with a contract
    address. On success the new record stands in front of the records
    stored before; it carries the result's address, hash and clock read, the
    reason (or 'Manual deployment' when none is given), no status and no
    flag. When all is well on chain but the store is JSON without a
    [deployments] member, the call raises: the contract exists and nothing
    records it. *)
Theorem deployContract_outcome : forall config balance tx t_result t_load t_save f,
  (Shape.ledgerFile f = true ->
   ((exists f' r,
       Deployer.deployContract config balance tx t_result t_load t_save f
         = Returns (f', r)) <->
    Deployer.chainId config = "base"%string /\
    Deployer.MIN_DEPLOY_WEI <= balance /\
    (exists hash addr, tx = Deployer.Mined hash (Some addr))) /\
   (forall f' r,
      Deployer.deployContract config balance tx t_result t_load t_save f
        = Returns (f', r) ->
      recordsOf f' = Deployer.recordOf config r :: recordsOf f /\
      tx = Deployer.Mined (Deployer.transactionHash r) (Some (Deployer.address r)) /\
      Deployer.timestamp r = t_result /\
      address (Deployer.recordOf config r) = Deployer.address r /\
      timestamp (Deployer.recordOf config r) = t_result /\
      Deployments.reason (Deployer.recordOf config r) =
        Deployer.reasonOrDefault (Deployer.reason config) /\
      status (Deployer.recordOf config r) = None /\
      sunset (Deployer.recordOf config r) = None)) /\
  (forall hash addr v,
     Deployer.chainId config = "base"%string ->
     Deployer.MIN_DEPLOY_WEI <= balance ->
     tx = Deployer.Mined hash (Some addr) ->
     f = Stored (OtherJson v) ->
     Shape.lacksDeployments v = true ->
     Deployer.deployContract config balance tx t_result t_load t_save f
       = Throws TypeError).
Proof.
  intros config balance tx t_result t_load t_save f. split; [intros Hf; split; [split|]|].
  - intros [f' [r H]].
    destruct (deployContract_inv _ _ _ _ _ _ _ _ _ H) as [Hc [Hb [Ht _]]].
    split; [exact Hc|]. split; [exact Hb|].
    eexists. eexists. exact Ht.
  - intros [Hc [Hb [hash [addr ->]]]].
    unfold Deployer.deployContract, Deployer.getExplorerAddressUrl,
      Deployer.getExplorerTxUrl, Deployer.explorerBase.
    rewrite Hc. cbn [String.eqb Ascii.eqb Bool.eqb bind].
    apply Z.leb_le in Hb. rewrite Hb. cbn [negb].
    assert (Hjson : forall v, f <> Stored (OtherJson v)).
    { intros v ->. discriminate Hf. }
    destruct (LedgerOps.loadMemory_fresh_or_ledger t_load f Hjson) as [m [Hm _]].
    unfold saveDeployment. rewrite Hm. cbn [bind ledger_of].
    eexists; eexists; reflexivity.
  - intros f' r H.
    destruct (deployContract_inv _ _ _ _ _ _ _ _ _ H) as [_ [_ [Ht [Hr [_ ->]]]]].
    cbn [recordsOf deployments]. split; [reflexivity|]. split; [exact Ht|].
    rewrite Hr. cbn. repeat split.
  - intros hash addr v Hc Hb -> -> _.
    unfold Deployer.deployContract, Deployer.getExplorerAddressUrl,
      Deployer.getExplorerTxUrl, Deployer.explorerBase.
    rewrite Hc. cbn [String.eqb Ascii.eqb Bool.eqb bind].
    apply Z.leb_le in Hb. rewrite Hb. reflexivity.
Qed.

(** X7. A successful deployment closes the gate: on the file it leaves,
    [canDeploy] allows the next deployment exactly when the balance reaches
    0.005 ETH and the clock read is at least 60 minutes past the clock read
    recorded in the deployment. *)
Theorem gate_closed_after_deploy :
  forall config balance tx t_result t_load t_save f f' r b g_load g_hour g_minutes,
  Deployer.deployContract config balance tx t_result t_load t_save f = Returns (f', r) ->
  exists v,
    canDeploy b f' g_load g_hour g_minutes = Returns v /\
    (allowed v = true <->
     MIN_BALANCE_WEI <= b /\ t_result + 60 * 60 * 1000 <= g_hour).
Proof.
  intros config balance tx t_result t_load t_save f f' r b g_load g_hour g_minutes H.
  destruct (deployContract_inv _ _ _ _ _ _ _ _ _ H) as [_ [_ [_ [Hr [_ ->]]]]].
  pose proof (canDeploy_on_ledger b
    {| version := match f with
                  | Stored (LedgerText m) => version m
                  | _ => 1
                  end;
       lastUpdated := t_save;
       deployments := Deployer.recordOf config r :: recordsOf f |}
    g_load g_hour g_minutes) as [v [Hv Hiff]].
  exists v. split; [exact Hv|]. rewrite Hiff. cbn [deployments].
  replace (timestamp (Deployer.recordOf config r)) with t_result
    by (rewrite Hr; reflexivity).
  lia.
Qed.

(** A vote contract deployed on a fresh store at clock 1000: half an hour
    later the gate is closed even for a rich wallet. *)
Lemma gate_closed_after_deploy_witness :
  let config := {| Deployer.name := "Poll"; Deployer.chainId := "base";
                   Deployer.reason := None |} in
  let tx := Deployer.Mined "0xhash" (Some "0xA"%string) in
  exists f' r,
    Deployer.deployContract config (10 ^ 18) tx 1000 1000 1000 Missing
      = Returns (f', r) /\
    exists v,
      canDeploy (10 ^ 18) f' 1801000 1801000 1801000 = Returns v /\
      (allowed v = true <->
       MIN_BALANCE_WEI <= 10 ^ 18 /\ 1000 + 60 * 60 * 1000 <= 1801000).
Proof.
  cbv zeta. eexists. eexists. split; [reflexivity|].
  exact (gate_closed_after_deploy
           {| Deployer.name := "Poll"; Deployer.chainId := "base";
              Deployer.reason := None |}
           (10 ^ 18) (Deployer.Mined "0xhash" (Some "0xA"%string))
           1000 1000 1000 Missing _ _ (10 ^ 18) 1801000 1801000 1801000 eq_refl).
Defined.

End GateAndDeploy.

(** ** Casts, and the records over time *)
Module SunsetFacts.
Import Js ListFacts Deployments Lifecycle Report Automation.

(** X8. [postCast] never raises: a missing signer, a failing request and a
    rejected request all come back as a result with [success = false] and an
    error text, and [success] is true exactly when the signer is configured
    and the cast was accepted, in which case the result carries its hash. *)
Theorem postCast_never_raises : forall signer net text,
  exists c,
    Farcaster.postCast signer net text = Returns c /\
    (Farcaster.success c = true <->
     signer = true /\ exists hash, net = Farcaster.Accepted hash) /\
    (Farcaster.success c = true ->
     Farcaster.error c = None /\
     exists hash, net = Farcaster.Accepted hash /\ Farcaster.castHash c = Some hash) /\
    (Farcaster.success c = false ->
     Farcaster.castHash c = None /\ exists message, Farcaster.error c = Some message).
Proof.
  intros signer net text. unfold Farcaster.postCast.
  destruct signer; cbn [negb].
  - destruct net as [msg|msg|hash]; cbn [try_catch]; eexists;
      (split; [reflexivity|]); cbn [Farcaster.success Farcaster.error Farcaster.castHash].
    + split; [split; [discriminate | intros [_ [h Hh]]; discriminate]|].
      split; [discriminate|]. intros _. split; [reflexivity | now eexists].
    + split; [split; [discriminate | intros [_ [h Hh]]; discriminate]|].
      split; [discriminate|]. intros _. split; [reflexivity | now eexists].
    + split; [split; [intros _; split; [reflexivity | now exists hash] | reflexivity]|].
      split; [|discriminate]. intros _. split; [reflexivity | now exists hash].
  - eexists. split; [reflexivity|].
    cbn [Farcaster.success Farcaster.error Farcaster.castHash].
    split; [split; [discriminate | intros [Hs _]; discriminate]|].
    split; [discriminate|]. intros _. split; [reflexivity | now eexists].
Qed.

(** X9. [processSunset] with the announce call of social/farcaster.ts: on a
    store that holds or yields a ledger it returns, and its result says
    [announced = true] whatever happened to the cast, also when the signer
    is not configured or the request failed; when no record has the
    deployment's address the file is left as it is and the announcement is
    still made. On JSON without a [deployments] member it raises a
    TypeError before anything is announced. *)
Theorem processSunset_outcome :
  forall signer net deployment metrics f t_load t_save t_done,
  match f with
  | Stored (OtherJson v) =>
      Shape.lacksDeployments v = true ->
      processSunset signer net deployment metrics f t_load t_save t_done
        = Throws TypeError
  | _ =>
      exists run,
        processSunset signer net deployment metrics f t_load t_save t_done
          = Returns run /\
        announced (result run) = true /\
        (firstWithAddress (Deployments.address deployment) (recordsOf f) = None ->
         file_after run = f /\
         effects run = [AnnounceSunset (Deployments.name deployment)
                          (sunsetReason metrics)])
  end.
Proof.
  intros signer net deployment metrics f t_load t_save t_done.
  assert (Hfresh : loadMemory t_load f = Returns (Ledger (emptyMemory t_load)) ->
    exists run,
      processSunset signer net deployment metrics f t_load t_save t_done
        = Returns run /\
      announced (result run) = true /\
      file_after run = f /\
      effects run = [AnnounceSunset (Deployments.name deployment)
                       (sunsetReason metrics)]).
  { intros Hl. unfold processSunset, processSunsetWith. rewrite Hl.
    cbn [bind ledger_of emptyMemory deployments findIndex]. cbv zeta.
    destruct (AutomationFacts.announceSunset_returns signer net
                (Deployments.name deployment) "base" (sunsetReason metrics))
      as [c [-> _]].
    eexists. split; [reflexivity|]. repeat split. }
  destruct f as [| |[text|m|v]]; try (intros _; reflexivity).
  1-3: destruct (Hfresh eq_refl) as [run [H1 [H2 [H3 H4]]]]; exists run; auto.
  unfold processSunset. rewrite AutomationFacts.processSunsetWith_run. cbv zeta.
  eexists. split; [reflexivity|]. cbn [result announced file_after effects].
  destruct (AutomationFacts.announceSunset_returns signer net
              (Deployments.name deployment) "base" (sunsetReason metrics))
    as [c [-> _]].
  split; [reflexivity|].
  unfold firstWithAddress. cbn [recordsOf]. intros Hnone.
  destruct (findIndex _ (deployments m)) as [i|] eqn:Hi; [|split; reflexivity].
  destruct (findIndex_Some _ _ _ Hi) as [x [Hx Hp]].
  pose proof (find_none _ _ Hnone x (nth_error_In _ _ Hx)) as Hq.
  cbv beta in Hq. congruence.
Qed.

Lemma kept_refl : forall d, kept d d.
Proof. intros d. unfold kept. tauto. Qed.

Lemma kept_trans : forall a b c, kept a b -> kept b c -> kept a c.
Proof.
  unfold kept. intros a b c [A1 [A2 [A3 [A4 [A5 A6]]]]] [B1 [B2 [B3 [B4 [B5 B6]]]]].
  repeat split; try congruence; auto.
Qed.

Lemma kept_mark : forall why d, kept d (mark why d).
Proof.
  intros why d. unfold kept. cbn. repeat split; auto. discriminate.
Qed.

Lemma kept_set_sunset : forall d, kept d (set_sunset d).
Proof.
  intros d. unfold kept. cbn. repeat split; auto.
Qed.

Lemma extends_refl : forall l, extends 0 l l.
Proof.
  intros l. split; [reflexivity|]. intros i d H. exists d. split; [exact H | apply kept_refl].
Qed.

Lemma extends_update_at : forall g l i,
  (forall d, kept d (g d)) -> extends 0 l (update_at i g l).
Proof.
  intros g l i Hg. split; [apply LedgerOps.length_update_at|].
  intros j d Hj. cbn [Nat.add]. destruct (Nat.eq_dec i j) as [->|Hne].
  - exists (g d). split; [now apply nth_error_update_at_same | apply Hg].
  - exists d. split; [|apply kept_refl].
    now rewrite nth_error_update_at_other.
Qed.

Lemma extends_trans : forall j k l1 l2 l3,
  extends j l1 l2 -> extends k l2 l3 -> extends (k + j) l1 l3.
Proof.
  intros j k l1 l2 l3 [L1 H1] [L2 H2]. split; [lia|].
  intros i d Hi. destruct (H1 i d Hi) as [d' [Hd' K1]].
  destruct (H2 _ d' Hd') as [d'' [Hd'' K2]].
  exists d''. split; [|exact (kept_trans _ _ _ K1 K2)].
  now replace (k + j + i)%nat with (k + (j + i))%nat by lia.
Qed.

Lemma step_extends : forall f f',
  step f f' -> exists k, (k <= 1)%nat /\ extends k (recordsOf f) (recordsOf f').
Proof.
  intros f f' H.
  destruct H as [ f config balance tx t_result t_load t_save f' r Hd
                | f announce d metrics t_load t_save t_done run Hp
                | f t_load t_save addr f' Hs ].
  - destruct (GateAndDeploy.deployContract_inv _ _ _ _ _ _ _ _ _ Hd)
      as [_ [_ [_ [_ [_ ->]]]]].
    exists 1%nat. split; [lia|]. cbn [recordsOf deployments].
    split; [reflexivity|]. intros i d Hi. exists d. split; [exact Hi | apply kept_refl].
  - exists 0%nat. split; [lia|].
    destruct f as [| |[text|m|v]]; try discriminate Hp;
      try (injection Hp as <-; cbn [file_after]; apply extends_refl).
    rewrite AutomationFacts.processSunsetWith_run in Hp. cbv zeta in Hp.
    injection Hp as <-. cbn [file_after].
    destruct (findIndex _ (deployments m)) as [i|]; [|apply extends_refl].
    cbn [recordsOf saveMemory with_deployments deployments].
    apply extends_update_at. apply kept_mark.
  - exists 0%nat. split; [lia|].
    destruct f as [| |[text|m|v]]; try discriminate Hs;
      try (injection Hs as <-; apply extends_refl).
    unfold sunsetDeployment in Hs. rewrite DeploymentsFacts.loadMemory_ledger in Hs.
    cbn [bind ledger_of] in Hs.
    destruct (findIndex _ (deployments m)) as [i|]; injection Hs as <-;
      [|apply extends_refl].
    cbn [recordsOf saveMemory with_deployments deployments].
    apply extends_update_at. apply kept_set_sunset.
Qed.

(** X10. Over any sequence of deployments and retirements (by the sunset
    processor or by the legacy call) no record is deleted or reordered: each
    record of the earlier file is found in the later one, behind the records
    deployed since, with the same address, name and timestamp; a status
    'sunset' and a legacy flag, once set, stay; and no record gains the
    status 'active'. *)
Theorem steps_keep_records : forall f f',
  steps f f' -> exists k, extends k (recordsOf f) (recordsOf f').
Proof.
  intros f f' H. induction H as [f | f g h Hfg Hgh [k IH]].
  - exists 0%nat. apply extends_refl.
  - destruct (step_extends _ _ Hfg) as [j [_ Hj]].
    exists (k + j)%nat. exact (extends_trans _ _ _ _ _ Hj IH).
Qed.

(** A second deployment onto a ledger of one record: the first record is
    found at index 1. *)
Lemma steps_keep_records_witness :
  let cfg := {| Deployer.name := "Poll"; Deployer.chainId := "base";
                Deployer.reason := None |} in
  let f1 := Stored (LedgerText (unshift (sampleRecord "0xA" 0) (emptyMemory 0))) in
  let f2 := saveMemory 5
              (unshift (Deployer.recordOf cfg
                          {| Deployer.address := "0xB";
                             Deployer.transactionHash := "0xhash";
                             Deployer.explorerUrl := "https://basescan.org/address/0xB";
                             Deployer.txExplorerUrl := "https://basescan.org/tx/0xhash";
                             Deployer.resultChainId := "base";
                             Deployer.timestamp := 5 |})
                       (unshift (sampleRecord "0xA" 0) (emptyMemory 0))) in
  steps f1 f2 /\ exists k, extends k (recordsOf f1) (recordsOf f2).
Proof.
  cbv zeta.
  match goal with
  | |- steps ?a ?b /\ _ => assert (H : steps a b)
  end.
  { eapply steps_more; [|apply steps_none].
    eapply (step_deploy _
              {| Deployer.name := "Poll"; Deployer.chainId := "base";
                 Deployer.reason := None |}
              (10 ^ 18) (Deployer.Mined "0xhash" (Some "0xB"%string)) 5 5 5).
    reflexivity. }
  exact (conj H (steps_keep_records _ _ H)).
Defined.

End SunsetFacts.

(** ** The sunset run *)
Module SunsetRunFacts.
Import Js ListFacts Deployments Lifecycle Report Automation SunsetRun.

Lemma retired_update_at : forall a why l i,
  retired a l -> retired a (update_at i (mark why) l).
Proof.
  intros a why. unfold retired, firstWithAddress.
  induction l as [|x l IH]; intros [|i] [d [Hd Hs]]; cbn [update_at find] in *;
    try discriminate.
  - change (Deployments.address (mark why x)) with (Deployments.address x).
    destruct (String.eqb (Deployments.address x) a).
    + exists (mark why x). split; reflexivity.
    + exists d. split; assumption.
  - destruct (String.eqb (Deployments.address x) a).
    + exists d. split; assumption.
    + apply IH. exists d. split; assumption.
Qed.

Lemma retired_at_index : forall a why l i,
  findIndex (fun d => String.eqb (Deployments.address d) a) l = Some i ->
  retired a (update_at i (mark why) l).
Proof.
  intros a why. unfold retired, firstWithAddress.
  induction l as [|x l IH]; intros i H; cbn [findIndex] in H; [discriminate|].
  destruct (String.eqb (Deployments.address x) a) eqn:Hx.
  - injection H as <-. cbn [update_at find].
    change (Deployments.address (mark why x)) with (Deployments.address x).
    rewrite Hx. exists (mark why x). split; reflexivity.
  - destruct (findIndex _ l) as [j|]; [|discriminate]. injection H as <-.
    cbn [update_at find]. rewrite Hx. now apply IH.
Qed.

Lemma findIndex_of_address : forall a l,
  In a (map Deployments.address l) ->
  exists i, findIndex (fun d => String.eqb (Deployments.address d) a) l = Some i.
Proof.
  intros a. induction l as [|x l IH]; intros H; [destruct H|].
  cbn [findIndex]. destruct (String.eqb (Deployments.address x) a) eqn:Hx.
  - now exists O.
  - destruct H as [H|H]; [apply String.eqb_neq in Hx; contradiction|].
    destruct (IH H) as [i ->]. now exists (S i).
Qed.

Lemma find_of_address : forall a l,
  In a (map Deployments.address l) ->
  exists d, find (fun d => String.eqb (Deployments.address d) a) l = Some d /\
            Deployments.address d = a.
Proof.
  intros a. induction l as [|x l IH]; intros H; [destruct H|].
  cbn [find]. destruct (String.eqb (Deployments.address x) a) eqn:Hx.
  - exists x. split; [reflexivity | now apply String.eqb_eq].
  - destruct H as [H|H]; [apply String.eqb_neq in Hx; contradiction|].
    exact (IH H).
Qed.

Lemma processCandidates_ledger : forall signer world snapshot candidates i m,
  (forall c, In c candidates ->
             In (Tracker.address c) (map Deployments.address snapshot)) ->
  map Deployments.address snapshot = map Deployments.address (deployments m) ->
  exists m' effs results,
    processCandidates signer world i snapshot candidates (Stored (LedgerText m))
      = Returns (Stored (LedgerText m'), effs, results) /\
    map address results = map Tracker.address candidates /\
    (forall a, retired a (deployments m) -> retired a (deployments m')) /\
    (forall r, In r results ->
               retired (address r) (deployments m') /\ announced r = true) /\
    extends 0 (deployments m) (deployments m') /\
    (candidates = [] -> m' = m /\ effs = []).
Proof.
  intros signer world snapshot. induction candidates as [|c rest IH]; intros i m Hin Hmap.
  - exists m, [], []. cbn [processCandidates]. split; [reflexivity|].
    split; [reflexivity|]. split; [auto|]. split; [intros r []|].
    split; [apply SunsetFacts.extends_refl | auto].
  - cbn [processCandidates].
    destruct (find_of_address (Tracker.address c) snapshot (Hin c (or_introl eq_refl)))
      as [d [Hfind Haddr]].
    rewrite Hfind. cbv zeta. unfold processSunset.
    rewrite AutomationFacts.processSunsetWith_run. cbv zeta.
    cbn [bind file_after effects result].
    assert (Hd : In (Deployments.address d) (map Deployments.address (deployments m))).
    { rewrite <- Hmap, Haddr. apply Hin. now left. }
    destruct (findIndex_of_address _ _ Hd) as [i0 Hi0]. rewrite Hi0.
    set (why := sunsetReason c).
    set (m1 := {| version := version m; lastUpdated := stepSave (world i);
                  deployments := update_at i0 (mark why) (deployments m) |}).
    change (saveMemory (stepSave (world i))
              (with_deployments m (update_at i0 (mark why) (deployments m))))
      with (Stored (LedgerText m1)).
    destruct (IH (S i) m1) as [m' [effs [results [Hrun [Hres [Hret [Hall [Hext _]]]]]]]].
    { intros c' Hc'. apply Hin. now right. }
    { rewrite Hmap. subst m1. cbn [deployments]. symmetry.
      apply LedgerOps.map_update_at_same. reflexivity. }
    rewrite Hrun. cbn [bind].
    eexists. eexists. eexists. split; [reflexivity|].
    split; [cbn [map address]; now rewrite Hres, Haddr|].
    split.
    { intros a Ha. apply Hret. subst m1. cbn [deployments].
      now apply retired_update_at. }
    split.
    { intros r [<-|Hr]; [|now apply Hall]. cbn [address announced]. split.
      - apply Hret. subst m1. cbn [deployments]. now apply retired_at_index.
      - destruct (AutomationFacts.announceSunset_returns signer (stepNet (world i))
                    (Deployments.name d) "base" why) as [cast [-> _]].
        reflexivity. }
    split; [|discriminate].
    apply (SunsetFacts.extends_trans 0 0 _ (deployments m1)); [|exact Hext].
    subst m1. cbn [deployments]. apply SunsetFacts.extends_update_at.
    apply SunsetFacts.kept_mark.
Qed.

Lemma analyzeEngagement_address : forall d p,
  Tracker.address (Tracker.analyzeEngagement d p) = Deployments.address d.
Proof.
  intros d p. unfold Tracker.analyzeEngagement. cbv zeta.
  destruct (Tracker.thresholds _). reflexivity.
Qed.

(** X11. [runSunsetAutomation] on a stored ledger returns: it processes
    every candidate that [getSunsetCandidates] reports, in order; for each
    result the first record with that address ends with status 'sunset',
    and the result says [announced = true]; no record is deleted or
    reordered, and records already retired stay retired. With no candidate
    nothing is written and nothing is posted; otherwise the status update
    with the number of results is the last effect. *)
Theorem runSunsetAutomation_retires_candidates :
  forall signer world observe t_candidates t_snapshot m,
  let f := Stored (LedgerText m) in
  exists f' events results candidates,
    runSunsetAutomation signer world observe t_candidates t_snapshot f
      = Returns (f', events, results) /\
    Tracker.getSunsetCandidates observe t_candidates f = Returns candidates /\
    map address results = map Tracker.address candidates /\
    (forall r, In r results ->
               retired (address r) (recordsOf f') /\ announced r = true) /\
    (forall a, retired a (deployments m) -> retired a (recordsOf f')) /\
    extends 0 (deployments m) (recordsOf f') /\
    match results with
    | [] => f' = f /\ events = []
    | _ :: _ =>
        exists before,
          events = (before ++ [StatusUpdate (summaryMessage (List.length results))])%list
    end.
Proof.
  intros signer world observe t_candidates t_snapshot m f. subst f.
  unfold runSunsetAutomation.
  destruct (Tracker.getSunsetCandidates observe t_candidates (Stored (LedgerText m)))
    as [candidates|e] eqn:Hc; [|discriminate Hc].
  cbn [bind].
  assert (Hin : forall c, In c candidates ->
            In (Tracker.address c) (map Deployments.address (deployments m))).
  { unfold Tracker.getSunsetCandidates, Tracker.analyzeAllDeployments in Hc.
    rewrite DeploymentsFacts.loadMemory_ledger in Hc. cbn [bind ledger_of] in Hc.
    injection Hc as <-. intros c Hcin.
    apply filter_In in Hcin. destruct Hcin as [Hcin _].
    apply in_map_iff in Hcin. destruct Hcin as [d [<- Hd]].
    rewrite analyzeEngagement_address. apply in_map.
    unfold Tracker.activeDeployments in Hd. apply filter_In in Hd. tauto. }
  destruct candidates as [|c rest].
  - exists (Stored (LedgerText m)), [], [], [].
    split; [reflexivity|]. split; [reflexivity|]. split; [reflexivity|].
    split; [intros r []|]. split; [auto|].
    split; [apply SunsetFacts.extends_refl | split; reflexivity].
  - rewrite DeploymentsFacts.loadMemory_ledger. cbn [bind ledger_of].
    destruct (processCandidates_ledger signer world (deployments m) (c :: rest) 0 m
                Hin eq_refl)
      as [m' [effs [results [Hrun [Hres [Hret [Hall [Hext _]]]]]]]].
    rewrite Hrun. cbn [bind].
    exists (Stored (LedgerText m')). eexists. exists results, (c :: rest).
    split; [reflexivity|]. split; [reflexivity|]. split; [exact Hres|].
    cbn [recordsOf]. split; [exact Hall|]. split; [exact Hret|].
    split; [exact Hext|].
    destruct results as [|r results]; [discriminate Hres|].
    now eexists.
Qed.

(** X12. On every store that deployments and retirements can reach from an
    empty one, [runSunsetAutomation] finds no candidate: it returns no
    result, writes nothing and posts nothing. *)
Theorem runSunsetAutomation_idle : forall signer world observe t_candidates t_snapshot f,
  reachable f ->
  runSunsetAutomation signer world observe t_candidates t_snapshot f
    = Returns (f, [], []).
Proof.
  intros signer world observe t_candidates t_snapshot f Hr.
  pose proof (LifecycleFacts.reachable_noneActive f Hr) as Hn.
  destruct (LifecycleFacts.loadMemory_noneActive t_candidates f Hn) as [m [Hm Hall]].
  unfold runSunsetAutomation, Tracker.getSunsetCandidates,
    Tracker.analyzeAllDeployments, Tracker.activeDeployments.
  rewrite Hm. cbn [bind ledger_of].
  rewrite (filter_none (Tracker.statusIs StatusActive)) by exact Hall.
  reflexivity.
Qed.

(** The store after one deployment. *)
Lemma runSunsetAutomation_idle_witness :
  let f := Stored (LedgerText (unshift (sampleRecord "0xA" 0) (emptyMemory 0))) in
  let world := fun _ : nat =>
    {| stepLoad := 1; stepSave := 1; stepDone := 1;
       stepNet := Farcaster.Accepted "0xcast" |} in
  let observe := fun _ : DeploymentRecord =>
    {| Tracker.fetchedTransfers := 0; Tracker.fetchedHolders := 0;
       Tracker.fetchedMentions := 0; Tracker.clockAtScore := 172800000;
       Tracker.clockAtReturn := 172800000 |} in
  reachable f /\
  runSunsetAutomation true world observe 1 1 f = Returns (f, [], []).
Proof.
  cbv zeta.
  match goal with
  | |- reachable ?a /\ _ => assert (H : reachable a)
  end.
  { eapply (reach_deploy Missing
              {| Deployer.name := "Sample"; Deployer.chainId := "base";
                 Deployer.reason := None |}
              (10 ^ 18) (Deployer.Mined "0xhash" (Some "0xA"%string)) 0 0 0);
      [exact reach_start | reflexivity]. }
  exact (conj H (runSunsetAutomation_idle true _ _ 1 1 _ H)).
Defined.

Lemma runSunsetAutomation_keeps :
  forall signer world observe t_candidates t_snapshot f f' events results,
  runSunsetAutomation signer world observe t_candidates t_snapshot f
    = Returns (f', events, results) ->
  extends 0 (recordsOf f) (recordsOf f') /\
  (reachable f -> f' = f /\ events = []).
Proof.
  intros signer world observe t_candidates t_snapshot f f' events results Hrun.
  split.
  - unfold runSunsetAutomation in Hrun.
    destruct (Tracker.getSunsetCandidates observe t_candidates f)
      as [candidates|e] eqn:Hc; [|discriminate Hrun].
    cbn [bind] in Hrun.
    destruct candidates as [|c rest].
    { injection Hrun as <- _ _. apply SunsetFacts.extends_refl. }
    destruct f as [| |[text|m|v]]; try discriminate Hc.
    rewrite DeploymentsFacts.loadMemory_ledger in Hrun. cbn [bind ledger_of] in Hrun.
    assert (Hin : forall c', In c' (c :: rest) ->
              In (Tracker.address c') (map Deployments.address (deployments m))).
    { unfold Tracker.getSunsetCandidates, Tracker.analyzeAllDeployments in Hc.
      rewrite DeploymentsFacts.loadMemory_ledger in Hc. cbn [bind ledger_of] in Hc.
      injection Hc as Hc. rewrite <- Hc. intros c' Hcin.
      apply filter_In in Hcin. destruct Hcin as [Hcin _].
      apply in_map_iff in Hcin. destruct Hcin as [d [<- Hd]].
      rewrite analyzeEngagement_address. apply in_map.
      unfold Tracker.activeDeployments in Hd. apply filter_In in Hd. tauto. }
    destruct (processCandidates_ledger signer world (deployments m) (c :: rest) 0 m
                Hin eq_refl)
      as [m' [effs [results' [Hp [_ [_ [_ [Hext _]]]]]]]].
    rewrite Hp in Hrun. cbn [bind] in Hrun. injection Hrun as <- _ _.
    exact Hext.
  - intros Hr.
    pose proof (LifecycleFacts.reachable_noneActive f Hr) as Hn.
    destruct (LifecycleFacts.loadMemory_noneActive t_candidates f Hn) as [m [Hm Hall]].
    unfold runSunsetAutomation, Tracker.getSunsetCandidates,
      Tracker.analyzeAllDeployments, Tracker.activeDeployments in Hrun.
    rewrite Hm in Hrun. cbn [bind ledger_of] in Hrun.
    rewrite (filter_none (Tracker.statusIs StatusActive)) in Hrun by exact Hall.
    cbn in Hrun. injection Hrun as <- <- _. auto.
Qed.

End SunsetRunFacts.

(** ** What the analysis reports *)
Module TrackerViews.
Import Js JsNumber ListFacts Deployments Lifecycle Tracker.

Local Open Scope float_scope.

(** The score that [analyzeEngagement] computes for a deployment. *)
Lemma analyzeEngagement_fields : forall d p,
  let days := daysSince (clockAtScore p) d in
  let score := calculateEngagementScore (number_of_Z (fetchedTransfers p))
                 (number_of_Z (fetchedHolders p)) (number_of_Z (fetchedMentions p))
                 days in
  analyzeEngagement d p =
  {| address := Deployments.address d;
     name := Deployments.name d;
     transferCount := fetchedTransfers p;
     uniqueHolders := fetchedHolders p;
     engagementScore := Z_of_number score;
     isPerforming := snd (thresholds score);
     recommendation := graceOverride days (fst (thresholds score));
     checkedAt := clockAtReturn p |}.
Proof.
  intros d p. cbv zeta. unfold analyzeEngagement. cbv zeta.
  destruct (thresholds _) as [r b]. reflexivity.
Qed.

(** X13. The verdict of [analyzeEngagement]: 'promote' exactly when the
    score reaches 50; 'sunset' exactly when the record is not performing
    (score below both thresholds) and not younger than a day; a record
    younger than a day whose score is below both thresholds is reported
    with recommendation 'keep' and [isPerforming = false]; a 'promote' or a
    'sunset' verdict always agrees with [isPerforming]. *)
Theorem analyzeEngagement_verdict : forall d p,
  let days := daysSince (clockAtScore p) d in
  let score := calculateEngagementScore (number_of_Z (fetchedTransfers p))
                 (number_of_Z (fetchedHolders p)) (number_of_Z (fetchedMentions p))
                 days in
  let m := analyzeEngagement d p in
  (recommendation m = promote <-> (50 <=? score) = true) /\
  (isPerforming m = true <-> (50 <=? score) = true \/ (20 <=? score) = true) /\
  (recommendation m = sunset <-> isPerforming m = false /\ (days <? 1) = false) /\
  (recommendation m = keep /\ isPerforming m = false <->
   (50 <=? score) = false /\ (20 <=? score) = false /\ (days <? 1) = true) /\
  (recommendation m = promote -> isPerforming m = true) /\
  (recommendation m = sunset -> isPerforming m = false).
Proof.
  intros d p. cbv zeta. rewrite analyzeEngagement_fields.
  cbn [recommendation isPerforming]. unfold thresholds, graceOverride.
  destruct (50 <=? _); [|destruct (20 <=? _)]; cbn [fst snd is_sunset andb];
    rewrite ?andb_false_r; try (destruct (_ <? 1); cbn [andb]);
    repeat split; intros; try discriminate; try tauto;
    repeat match goal with
    | H : _ /\ _ |- _ => destruct H
    | H : _ \/ _ |- _ => destruct H
    end; try discriminate; auto.
Qed.

Lemma statusIs_active : forall d,
  statusIs StatusActive d = true -> status d = Some StatusActive.
Proof.
  intros d. unfold statusIs. destruct (status d) as [[|]|]; intros H;
    try discriminate; reflexivity.
Qed.

(** X14. [getSunsetCandidates] and [getHighPerformers] on a stored ledger:
    each reported entry is the analysis of a record with status 'active';
    a sunset candidate is never younger than a day and is not performing; a
    high performer is performing; no entry is in both lists, and together
    they are at most as many as the active records. *)
Theorem candidates_and_performers : forall observe t m,
  let f := Stored (LedgerText m) in
  exists candidates performers,
    getSunsetCandidates observe t f = Returns candidates /\
    Onchain.getHighPerformers observe t f = Returns performers /\
    (forall c, In c candidates ->
       exists d, In d (deployments m) /\ status d = Some StatusActive /\
                 c = analyzeEngagement d (observe d) /\
                 recommendation c = sunset /\ isPerforming c = false /\
                 (daysSince (clockAtScore (observe d)) d <? 1) = false) /\
    (forall h, In h performers ->
       exists d, In d (deployments m) /\ status d = Some StatusActive /\
                 h = analyzeEngagement d (observe d) /\
                 recommendation h = promote /\ isPerforming h = true) /\
    (forall x, In x candidates -> ~ In x performers) /\
    (List.length candidates + List.length performers
     <= List.length (activeDeployments m))%nat.
Proof.
  intros observe t m f. subst f.
  unfold getSunsetCandidates, Onchain.getHighPerformers, analyzeAllDeployments.
  rewrite DeploymentsFacts.loadMemory_ledger. cbn [bind ledger_of].
  eexists. eexists. split; [reflexivity|]. split; [reflexivity|].
  set (all := map (fun d => analyzeEngagement d (observe d)) (activeDeployments m)).
  assert (Horigin : forall x, In x all ->
            exists d, In d (deployments m) /\ status d = Some StatusActive /\
                      x = analyzeEngagement d (observe d)).
  { intros x Hx. apply in_map_iff in Hx. destruct Hx as [d [<- Hd]].
    unfold activeDeployments in Hd. apply filter_In in Hd. destruct Hd as [Hd Hs].
    exists d. split; [exact Hd|]. split; [now apply statusIs_active | reflexivity]. }
  split; [|split; [|split]].
  - intros c Hc. apply filter_In in Hc. destruct Hc as [Hc Hr].
    destruct (Horigin c Hc) as [d [Hd [Hs ->]]].
    exists d. split; [exact Hd|]. split; [exact Hs|]. split; [reflexivity|].
    assert (Hrec : recommendation (analyzeEngagement d (observe d)) = sunset)
      by (destruct (recommendation _); try discriminate; reflexivity).
    destruct (analyzeEngagement_verdict d (observe d)) as [_ [_ [Hsun _]]].
    destruct (proj1 Hsun Hrec) as [Hp Hdays]. auto.
  - intros h Hh. apply filter_In in Hh. destruct Hh as [Hh Hr].
    destruct (Horigin h Hh) as [d [Hd [Hs ->]]].
    exists d. split; [exact Hd|]. split; [exact Hs|]. split; [reflexivity|].
    assert (Hrec : recommendation (analyzeEngagement d (observe d)) = promote)
      by (destruct (recommendation _); try discriminate; reflexivity).
    destruct (analyzeEngagement_verdict d (observe d)) as [_ [_ [_ [_ [Hpro _]]]]].
    auto.
  - intros x Hc Hh. apply filter_In in Hc. apply filter_In in Hh.
    destruct Hc as [_ Hc], Hh as [_ Hh]. destruct (recommendation x); discriminate.
  - replace (List.length (activeDeployments m)) with (List.length all)
      by (unfold all; apply length_map).
    clearbody all. clear Horigin. induction all as [|x all IH]; [reflexivity|].
    cbn [filter]. destruct (recommendation x); cbn [is_sunset Onchain.is_promote List.length]; lia.
Qed.

End TrackerViews.

(** ** Counting transfer logs *)
Module OnchainFacts.
Import Js Onchain.

Lemma has_In : forall s a, has s a = true <-> In a s.
Proof.
  induction s as [|b s IH]; intros a; cbn [has In].
  - split; [discriminate | tauto].
  - destruct (String.eqb a b) eqn:Hab.
    + apply String.eqb_eq in Hab. split; auto.
    + apply String.eqb_neq in Hab. rewrite IH. split; [auto|].
      intros [H|H]; [congruence | exact H].
Qed.

Lemma add_spec : forall s a,
  NoDup s ->
  NoDup (add s a) /\ (forall b, In b (add s a) <-> In b s \/ b = a) /\
  (List.length (add s a) <= S (List.length s))%nat.
Proof.
  intros s a Hs. unfold add. destruct (has s a) eqn:Hh.
  - apply has_In in Hh. split; [exact Hs|]. split; [|lia].
    intros b. split; [auto | intros [H| ->]; assumption].
  - assert (Hn : ~ In a s) by (rewrite <- has_In; congruence).
    split; [|split].
    + apply NoDup_app; [exact Hs | constructor; [intros []|constructor] |].
      intros x Hx [<-|[]]. contradiction.
    + intros b. rewrite in_app_iff. cbn [In]. intuition congruence.
    + rewrite length_app. cbn [List.length]. lia.
Qed.

Lemma holders_fold : forall logs s,
  NoDup s ->
  let r := fold_left (fun s log => match recipient log with
                                   | Some a => add s a
                                   | None => s
                                   end) logs s in
  NoDup r /\
  (forall a, In a r <-> In a s \/ exists log, In log logs /\ recipient log = Some a) /\
  (List.length r <= List.length s + List.length logs)%nat.
Proof.
  induction logs as [|log logs IH]; intros s Hs; cbn [fold_left].
  - split; [exact Hs|]. split; [|cbn [List.length]; lia].
    intros a. split; [auto | intros [H|[log [[] _]]]; exact H].
  - destruct (recipient log) as [b|] eqn:Hb.
    + destruct (add_spec s b Hs) as [Hn [Hin Hlen]].
      destruct (IH (add s b) Hn) as [H1 [H2 H3]].
      split; [exact H1|]. split; [|cbn [List.length]; lia].
      intros a. rewrite H2, Hin. split.
      * intros [[H| ->]|[l [Hl Hr]]]; [now left | right | right].
        -- exists log. split; [now left | exact Hb].
        -- exists l. split; [now right | exact Hr].
      * intros [H|[l [[<-|Hl] Hr]]]; [left; now left | left; right | right].
        -- congruence.
        -- now exists l.
    + destruct (IH s Hs) as [H1 [H2 H3]].
      split; [exact H1|]. split; [|cbn [List.length]; lia].
      intros a. rewrite H2. split.
      * intros [H|[l [Hl Hr]]]; [now left | right].
        exists l. split; [now right | exact Hr].
      * intros [H|[l [[<-|Hl] Hr]]]; [now left | congruence | right; now exists l].
Qed.

(** X15. On the same logs the holder count never exceeds the transfer
    count: [getUniqueHolders] counts each recipient once, however often it
    received, and skips logs without a recipient; both counts are 0 when
    the log query raises. *)
Theorem holders_at_most_transfers : forall rpc,
  0 <= getUniqueHolders rpc <= getTransferCount rpc /\
  (forall e, getUniqueHolders (Throws e) = 0 /\ getTransferCount (Throws e) = 0) /\
  (forall logs,
     getTransferCount (Returns logs) = Z.of_nat (List.length logs) /\
     getUniqueHolders (Returns logs) = Z.of_nat (List.length (holdersOf logs)) /\
     NoDup (holdersOf logs) /\
     (forall a, In a (holdersOf logs) <->
                exists log, In log logs /\ recipient log = Some a)).
Proof.
  intros rpc. split; [|split].
  - destruct rpc as [logs|e]; cbn [getUniqueHolders getTransferCount]; [|lia].
    destruct (holders_fold logs [] (NoDup_nil _)) as [_ [_ H]].
    cbn [List.length] in H. unfold holdersOf. lia.
  - intros e. split; reflexivity.
  - intros logs. split; [reflexivity|]. split; [reflexivity|].
    destruct (holders_fold logs [] (NoDup_nil _)) as [H1 [H2 _]].
    split; [exact H1|]. intros a. unfold holdersOf. rewrite H2.
    split; [intros [[]|H]; exact H | auto].
Qed.

End OnchainFacts.

(** ** The autonomous loop *)
Module DaemonFacts.
Import Js ListFacts Deployments Lifecycle Report Daemon.

(** X17. [runEngagementCheck] on a store that holds or yields a ledger, or
    holds JSON without a [deployments] member: when fewer than 30 minutes
    have passed since the last check, nothing happens; when the check is
    due, the file is touched only by the sunset run, so every record is
    kept; on a store that deployments and retirements can reach the check
    analyses nothing, writes nothing and posts nothing; and on JSON without
    a [deployments] member the error is swallowed and the file stays as it
    is. *)
Theorem runEngagementCheck_effects :
  forall st now observeAll t_all signer world observe t_candidates t_snapshot f,
  Shape.plain f = true ->
  exists st' f' events,
    runEngagementCheck st now observeAll t_all signer world observe
      t_candidates t_snapshot f = (st', f', events) /\
    (now - lastEngagementCheck st < ENGAGEMENT_CHECK_INTERVAL_MS ->
     st' = st /\ f' = f /\ events = []) /\
    (ENGAGEMENT_CHECK_INTERVAL_MS <= now - lastEngagementCheck st ->
     lastEngagementCheck st' = now) /\
    extends 0 (recordsOf f) (recordsOf f') /\
    (reachable f -> f' = f /\ events = []) /\
    (forall v, f = Stored (OtherJson v) -> f' = f /\ events = []).
Proof.
  intros st now observeAll t_all signer world observe t_candidates t_snapshot f _.
  unfold runEngagementCheck.
  destruct (now - lastEngagementCheck st <? ENGAGEMENT_CHECK_INTERVAL_MS) eqn:Hdue.
  - apply Z.ltb_lt in Hdue. exists st, f, []. split; [reflexivity|].
    split; [auto|]. split; [lia|].
    split; [apply SunsetFacts.extends_refl | auto].
  - apply Z.ltb_ge in Hdue.
    destruct (Tracker.analyzeAllDeployments observeAll t_all f) as [metrics|e] eqn:Hall;
      cbn [bind].
    + destruct (SunsetRun.runSunsetAutomation signer world observe t_candidates
                  t_snapshot f) as [[[f' events] results]|e] eqn:Hrun.
      * destruct (SunsetRunFacts.runSunsetAutomation_keeps _ _ _ _ _ _ _ _ _ Hrun)
          as [Hext Hidle].
        eexists. exists f', events. split; [reflexivity|].
        split; [lia|]. split; [reflexivity|]. split; [exact Hext|].
        split; [exact Hidle|].
        intros v ->. discriminate Hall.
      * eexists. exists f, []. split; [reflexivity|].
        split; [lia|]. split; [reflexivity|].
        split; [apply SunsetFacts.extends_refl | auto].
    + eexists. exists f, []. split; [reflexivity|].
      split; [lia|]. split; [reflexivity|].
      split; [apply SunsetFacts.extends_refl | auto].
Qed.

(** A due check on a store that holds the JSON value [null]. *)
Lemma runEngagementCheck_effects_witness :
  let f := Stored (OtherJson JNull) in
  Shape.plain f = true /\
  exists st' f' events,
    runEngagementCheck initial 7200000 (Loop.observeAll Loop.samplePass) 7200000
      true (Loop.sunsetWorld Loop.samplePass) (Loop.observe Loop.samplePass)
      7200000 7200000 f = (st', f', events) /\
    (7200000 - lastEngagementCheck initial < ENGAGEMENT_CHECK_INTERVAL_MS ->
     st' = initial /\ f' = f /\ events = []) /\
    (ENGAGEMENT_CHECK_INTERVAL_MS <= 7200000 - lastEngagementCheck initial ->
     lastEngagementCheck st' = 7200000) /\
    extends 0 (recordsOf f) (recordsOf f') /\
    (reachable f -> f' = f /\ events = []) /\
    (forall v, f = Stored (OtherJson v) -> f' = f /\ events = []).
Proof.
  exact (conj eq_refl
           (runEngagementCheck_effects initial 7200000
              (Loop.observeAll Loop.samplePass) 7200000 true
              (Loop.sunsetWorld Loop.samplePass) (Loop.observe Loop.samplePass)
              7200000 7200000 (Stored (OtherJson JNull)) eq_refl)).
Defined.

(** Closing a case of [runIteration] in which the assumptions of a conjunct
    contradict the branch taken. *)
Ltac settle :=
  intros;
  repeat match goal with
  | H : Returns _ = Returns _ |- _ => injection H as H
  | H : Some _ = Some _ |- _ => injection H as H
  | H : Throws _ = Returns _ |- _ => discriminate H
  | H : None = Some _ |- _ => discriminate H
  end;
  subst;
  first [congruence | discriminate | auto; fail | now eexists].

(** An iteration that ends before the pre-announcement: nothing written,
    nothing announced. *)
Ltac quiet_iteration f :=
  eexists; exists f, []; split; [reflexivity|]; cbn;
  split; [reflexivity|]; split; [reflexivity|]; split; [reflexivity|];
  split; [now left|]; split; [|split]; settle.

(** An iteration that raises after the pre-announcement. *)
Ltac failed_iteration f :=
  eexists; exists f; eexists; split; [reflexivity|]; cbn;
  split; [reflexivity|]; split; [reflexivity|]; split; [reflexivity|];
  split; [now left|]; split; [|split]; settle.

(** X18. [runIteration] always counts the iteration and never raises. The
    ledger changes only through a successful [deployContract] of a
    non-ERC20 archetype, after the gate allowed and the signal asked to
    deploy. When the gate refuses, nothing is announced or deployed. When
    the archetype is ERC20, the token is deployed through Clanker and
    announced, and the ledger is left as it was: the deployment is recorded
    nowhere, so the rate limit of [canDeploy] does not see it. Once the gate
    allowed and the signal asked to deploy, the pre-deployment announcement
    is made, whatever the deployment then does. *)
Theorem runIteration_effects : forall st w f,
  exists st' f' events,
    runIteration st w f = (st', f', events) /\
    iterationCount st' = iterationCount st + 1 /\
    lastEngagementCheck st' = lastEngagementCheck st /\
    lastStatusUpdate st' = lastStatusUpdate st /\
    (f' = f \/
     exists v signal cfg r,
       Detector.canDeploy (gateBalance w) f (gateLoad w) (gateHour w) (gateMinutes w)
         = Returns v /\ Detector.allowed v = true /\
       detected w = Returns (Some signal) /\ shouldDeploy signal = true /\
       Agent.selectContractType (narrative signal) <> Agent.erc20 /\
       Deployer.deployContract cfg (deployBalance w) (submission w)
         (deployResultClock w) (deployLoad w) (deploySave w) f = Returns (f', r) /\
       Deployer.chainId cfg = "base"%string /\
       Deployer.reason cfg = Some (reason signal)) /\
    (forall v,
       Detector.canDeploy (gateBalance w) f (gateLoad w) (gateHour w) (gateMinutes w)
         = Returns v -> Detector.allowed v = false ->
       f' = f /\ events = []) /\
    (forall v signal c,
       Detector.canDeploy (gateBalance w) f (gateLoad w) (gateHour w) (gateMinutes w)
         = Returns v -> Detector.allowed v = true ->
       detected w = Returns (Some signal) -> shouldDeploy signal = true ->
       Agent.selectContractType (narrative signal) = Agent.erc20 ->
       clanker w = Returns c ->
       f' = f /\
       exists contractName symbol,
         events = [PreAnnounce contractName (reason signal);
                   ClankerDeployed contractName symbol (tokenAddress c);
                   DeploymentAnnounced contractName (tokenAddress c)]) /\
    (forall v signal,
       Detector.canDeploy (gateBalance w) f (gateLoad w) (gateHour w) (gateMinutes w)
         = Returns v -> Detector.allowed v = true ->
       detected w = Returns (Some signal) -> shouldDeploy signal = true ->
       exists contractName,
         hd_error events = Some (PreAnnounce contractName (reason signal))).
Proof.
  intros st w f. unfold runIteration, iterationBody.
  destruct (Detector.canDeploy _ f _ _ _) as [v|e] eqn:Hgate;
    cbn [andThen silent finish emit app]; [|quiet_iteration f].
  destruct (Detector.allowed v) eqn:Hallowed;
    cbn [negb andThen silent finish emit app]; [|quiet_iteration f].
  destruct (detected w) as [[signal|]|e] eqn:Hdet;
    cbn [andThen silent finish emit app]; [|quiet_iteration f|quiet_iteration f].
  destruct (shouldDeploy signal) eqn:Hshould;
    cbn [negb andThen silent finish emit app]; [|quiet_iteration f].
  cbv zeta.
  destruct (Agent.selectContractType (narrative signal)) eqn:Hkind.
  - (* ERC20: through Clanker *)
    destruct (clanker w) as [c|e] eqn:Hclanker;
      cbn [andThen silent finish emit app fst snd]; [|failed_iteration f].
    eexists; exists f; eexists; split; [reflexivity|]; cbn.
    split; [reflexivity|]. split; [reflexivity|]. split; [reflexivity|].
    split; [now left|]. split; [|split].
    + intros v0 Hv0 Ha. congruence.
    + intros v0 s0 c0 Hv0 Ha Hs Hsd Hk Hc. injection Hs as <-. injection Hc as <-.
      split; [reflexivity|]. eexists. eexists. reflexivity.
    + intros v0 s0 Hv0 Ha Hs Hsd. injection Hs as <-. eexists. reflexivity.
  - destruct (Deployer.deployContract _ _ _ _ _ _ f) as [[f' r]|e] eqn:Hdeploy;
      cbn [andThen silent finish emit app fst snd]; [|failed_iteration f].
    eexists; exists f'; eexists; split; [reflexivity|]; cbn.
    split; [reflexivity|]. split; [reflexivity|]. split; [reflexivity|].
    split; [|split; [|split]].
    + right. exists v, signal. eexists. exists r.
      split; [reflexivity|]. split; [exact Hallowed|]. split; [reflexivity|].
      split; [exact Hshould|]. split; [rewrite Hkind; discriminate|].
      split; [exact Hdeploy|]. split; reflexivity.
    + intros v0 Hv0 Ha. congruence.
    + intros v0 s0 c Hv0 Ha Hs Hsd Hk. congruence.
    + intros v0 s0 Hv0 Ha Hs Hsd. injection Hs as <-. eexists. reflexivity.
  - destruct (Deployer.deployContract _ _ _ _ _ _ f) as [[f' r]|e] eqn:Hdeploy;
      cbn [andThen silent finish emit app fst snd]; [|failed_iteration f].
    eexists; exists f'; eexists; split; [reflexivity|]; cbn.
    split; [reflexivity|]. split; [reflexivity|]. split; [reflexivity|].
    split; [|split; [|split]].
    + right. exists v, signal. eexists. exists r.
      split; [reflexivity|]. split; [exact Hallowed|]. split; [reflexivity|].
      split; [exact Hshould|]. split; [rewrite Hkind; discriminate|].
      split; [exact Hdeploy|]. split; reflexivity.
    + intros v0 Hv0 Ha. congruence.
    + intros v0 s0 c Hv0 Ha Hs Hsd Hk. congruence.
    + intros v0 s0 Hv0 Ha Hs Hsd. injection Hs as <-. eexists. reflexivity.
  - destruct (Deployer.deployContract _ _ _ _ _ _ f) as [[f' r]|e] eqn:Hdeploy;
      cbn [andThen silent finish emit app fst snd]; [|failed_iteration f].
    eexists; exists f'; eexists; split; [reflexivity|]; cbn.
    split; [reflexivity|]. split; [reflexivity|]. split; [reflexivity|].
    split; [|split; [|split]].
    + right. exists v, signal. eexists. exists r.
      split; [reflexivity|]. split; [exact Hallowed|]. split; [reflexivity|].
      split; [exact Hshould|]. split; [rewrite Hkind; discriminate|].
      split; [exact Hdeploy|]. split; reflexivity.
    + intros v0 Hv0 Ha. congruence.
    + intros v0 s0 c Hv0 Ha Hs Hsd Hk. congruence.
    + intros v0 s0 Hv0 Ha Hs Hsd. injection Hs as <-. eexists. reflexivity.
Qed.

(** X19. [postPeriodicStatus] never raises. Less than an hour after the
    last status update it does nothing. Otherwise it stamps
    [lastStatusUpdate] first and then posts at most one message: none when
    the store holds JSON without a [deployments] member or the wallet query
    raises, and, on a store that holds or yields a ledger, the message built
    from the number of records, the number of records not flagged as
    sunset, the number of records whose status is 'sunset', the balance and
    the iteration count. *)
Theorem postPeriodicStatus_report : forall st now t_stats t_sunset t_now balance f,
  exists st' posted,
    postPeriodicStatus st now t_stats t_sunset t_now balance f = (st', posted) /\
    (now - lastStatusUpdate st < STATUS_UPDATE_INTERVAL_MS ->
     st' = st /\ posted = None) /\
    (STATUS_UPDATE_INTERVAL_MS <= now - lastStatusUpdate st ->
     lastStatusUpdate st' = now /\
     lastEngagementCheck st' = lastEngagementCheck st /\
     iterationCount st' = iterationCount st /\
     (forall v, f = Stored (OtherJson v) -> Shape.lacksDeployments v = true ->
        posted = None) /\
     (forall e, balance = Throws e -> posted = None) /\
     (forall b, balance = Returns b -> (forall v, f <> Stored (OtherJson v)) ->
        posted = Some (statusMessage
                         (List.length (recordsOf f))
                         (List.length (filter (fun d => negb (flagged d)) (recordsOf f)))
                         (List.length (filter (Tracker.statusIs StatusSunset)
                                         (recordsOf f)))
                         b (iterationCount st)))).
Proof.
  intros st now t_stats t_sunset t_now balance f. unfold postPeriodicStatus.
  destruct (now - lastStatusUpdate st <? STATUS_UPDATE_INTERVAL_MS) eqn:Hdue.
  - apply Z.ltb_lt in Hdue. exists st, None. split; [reflexivity|].
    split; [auto | lia].
  - apply Z.ltb_ge in Hdue.
    destruct f as [| |[text|m|v]]; destruct balance as [b|e];
      (eexists; eexists; split; [reflexivity|]; split; [lia|]; intros _;
       cbn [lastStatusUpdate lastEngagementCheck iterationCount];
       split; [reflexivity|]; split; [reflexivity|]; split; [reflexivity|];
       split; [intros v0 Hv0 _; try discriminate Hv0; reflexivity|];
       split; [intros e0 He0; try discriminate He0; reflexivity|];
       intros b0 Hb0 Hf; try discriminate Hb0;
       try (exfalso; exact (Hf _ eq_refl));
       injection Hb0 as <-; reflexivity).
Qed.

End DaemonFacts.

(** ** Signal detection *)
Module SignalsFacts.
Import Js Deployments Signals.

Lemma textsOf_spec : forall casts,
  (In None casts /\ textsOf casts = Throws TypeError) \/
  (~ In None casts /\ exists texts, textsOf casts = Returns texts).
Proof.
  induction casts as [|[text|] rest IH]; cbn [textsOf].
  - right. split; [intros [] | now eexists].
  - destruct IH as [[Hin ->]|[Hno [texts ->]]]; cbn [bind].
    + left. split; [now right | reflexivity].
    + right. split; [intros [H|H]; [discriminate H | contradiction] | now eexists].
  - left. split; [now left | reflexivity].
Qed.

(** X20. [detectSignals] on a store that holds or yields a ledger, or holds
    JSON without a [deployments] member: with no cast from either feed
    (failed requests included) it returns null without reading the ledger
    or calling the language model; with casts, it raises exactly when the
    store holds such JSON, the model client cannot be built, or one of the
    first ten casts has no text string; it returns null when the request
    fails or the reply holds no parseable object, and otherwise returns the
    analysed signal, whose [shouldDeploy] is true exactly when the analysis
    says so and its strength is at least 7. *)
Theorem detectSignals_outcome : forall trending base t_load f llm t_id t_stamp,
  Shape.plain f = true ->
  let allCasts := (fetchTrendingCasts trending ++ fetchBaseCasts base)%list in
  let found := detectSignals trending base t_load f llm t_id t_stamp in
  (allCasts = [] -> found = Returns None) /\
  (allCasts <> [] ->
   ((exists e, found = Throws e) <->
    (exists v, f = Stored (OtherJson v)) \/ (exists e, llm = SdkRaises e) \/
    In None (firstn 10 allCasts)) /\
   (found = Returns None <->
    (forall v, f <> Stored (OtherJson v)) /\ ~ In None (firstn 10 allCasts) /\
    (llm = RequestRaises \/ llm = NoObject \/ llm = NotJson)) /\
   (forall signal, found = Returns (Some signal) ->
      exists a, llm = Analysed a /\
        narrative signal = analysisNarrative a /\
        reason signal = analysisReason a /\
        suggestedToken signal = analysisSuggestedToken a /\
        timestamp signal = t_stamp /\
        (shouldDeploy signal = true <->
         analysisShouldDeploy a = true /\
         (7 <=? analysisStrength a)%float = true))).
Proof.
  intros trending base t_load f llm t_id t_stamp _ allCasts found.
  subst found. unfold detectSignals. fold allCasts.
  split.
  - intros ->. reflexivity.
  - intros Hcasts. destruct allCasts as [|c rest] eqn:Hall; [now elim Hcasts|].
    cbn [List.length Nat.eqb].
    assert (Hjson : forall v,
              (let* loaded := loadMemory t_load (Stored (OtherJson v)) in
               let* memory := ledger_of loaded in
               analyzeSignalsWithLLM (c :: rest) (map name (deployments memory))
                 llm t_id t_stamp) = Throws TypeError) by reflexivity.
    assert (Hledger : forall past,
      let found := analyzeSignalsWithLLM (c :: rest) past llm t_id t_stamp in
      ((exists e, found = Throws e) <->
       (exists e, llm = SdkRaises e) \/ In None (firstn 10 (c :: rest))) /\
      (found = Returns None <->
       ~ In None (firstn 10 (c :: rest)) /\
       (llm = RequestRaises \/ llm = NoObject \/ llm = NotJson)) /\
      (forall signal, found = Returns (Some signal) ->
         exists a, llm = Analysed a /\
           narrative signal = analysisNarrative a /\
           reason signal = analysisReason a /\
           suggestedToken signal = analysisSuggestedToken a /\
           timestamp signal = t_stamp /\
           (shouldDeploy signal = true <->
            analysisShouldDeploy a = true /\
            (7 <=? analysisStrength a)%float = true))).
    { intros past found. subst found. unfold analyzeSignalsWithLLM, promptCasts.
      destruct (textsOf_spec (firstn 10 (c :: rest))) as [[Hin ->]|[Hno [texts ->]]];
        destruct llm as [e| | | |a]; cbn [client bind try_catch].
      all: split; [|split].
      all: try (split; [intros _; first [left; now eexists | now right]
                       | intros _; now eexists]).
      all: try (split; [intros [e0 He0]; discriminate He0
                       | intros [[e0 He0]|Hin]; [discriminate He0 | contradiction]]).
      all: try (split; [intros H; discriminate H
                       | intros [Hno' _]; contradiction]).
      all: try (split; [intros H; discriminate H
                       | intros [_ [H|[H|H]]]; discriminate H]).
      all: try (split; [intros _; split; [exact Hno | auto] | reflexivity]).
      all: try (intros signal Hs; discriminate Hs).
      intros signal Hs. injection Hs as <-. exists a.
      cbn [narrative reason suggestedToken timestamp shouldDeploy].
      repeat (split; [reflexivity|]). apply andb_true_iff. }
    destruct f as [| |[text|m|v]].
    5: { rewrite Hjson. split; [|split].
         - split; [intros _; left; now eexists | intros _; now eexists].
         - split; [intros H; discriminate H
                  | intros [Hf _]; exfalso; exact (Hf _ eq_refl)].
         - intros signal Hs. discriminate Hs. }
    all: cbn [loadMemory existsSync negb try_catch readFileSync bind JSON_parse
              ledger_of];
      match goal with
      | |- context [analyzeSignalsWithLLM _ ?past _ _ _] =>
          destruct (Hledger past) as [H1 [H2 H3]]
      end;
      cbv zeta in H1, H2, H3;
      (split; [|split; [|exact H3]]);
      [ rewrite H1; split;
        [ intros [H|H]; [right; left; exact H | right; right; exact H]
        | intros [[v0 Hv0]|[H|H]]; [discriminate Hv0 | now left | now right] ]
      | rewrite H2; split;
        [ intros [Ha Hb]; split; [intros v0; discriminate | split; assumption]
        | intros [_ [Ha Hb]]; split; assumption ] ].
Qed.

(** A vote narrative of strength 8, found in one trending cast while the
    channel feed is down and there is no ledger file yet. *)
Lemma detectSignals_outcome_witness :
  let trending := FeedBody (Some [Some "should we vote on the mascot?"%string]) in
  let llm := Analysed {| analysisShouldDeploy := true;
                         analysisNarrative := "mascot vote";
                         analysisStrength := 8%float;
                         analysisSuggestedToken := None;
                         analysisReason := "people are deciding" |} in
  let allCasts := (fetchTrendingCasts trending ++ fetchBaseCasts FeedRaises)%list in
  let found := detectSignals trending FeedRaises 0 Missing llm 1 2 in
  Shape.plain Missing = true /\
  (allCasts = [] -> found = Returns None) /\
  (allCasts <> [] ->
   ((exists e, found = Throws e) <->
    (exists v, Missing = Stored (OtherJson v)) \/ (exists e, llm = SdkRaises e) \/
    In None (firstn 10 allCasts)) /\
   (found = Returns None <->
    (forall v, Missing <> Stored (OtherJson v)) /\ ~ In None (firstn 10 allCasts) /\
    (llm = RequestRaises \/ llm = NoObject \/ llm = NotJson)) /\
   (forall signal, found = Returns (Some signal) ->
      exists a, llm = Analysed a /\
        narrative signal = analysisNarrative a /\
        reason signal = analysisReason a /\
        suggestedToken signal = analysisSuggestedToken a /\
        timestamp signal = 2 /\
        (shouldDeploy signal = true <->
         analysisShouldDeploy a = true /\
         (7 <=? analysisStrength a)%float = true))).
Proof.
  exact (conj eq_refl
           (detectSignals_outcome
              (FeedBody (Some [Some "should we vote on the mascot?"%string]))
              FeedRaises 0 Missing
              (Analysed {| analysisShouldDeploy := true;
                           analysisNarrative := "mascot vote";
                           analysisStrength := 8%float;
                           analysisSuggestedToken := None;
                           analysisReason := "people are deciding" |})
              1 2 eq_refl)).
Defined.

(** X21. An iteration whose signal comes from [detectSignals] announces,
    deploys or writes only when the gate allowed, at least one cast was
    fetched, and the language model's analysis asked to deploy with a
    strength of at least 7; in every other case it leaves the ledger as it
    was and announces nothing. *)
Theorem iteration_acts_on_strong_signals :
  forall st w f trending base t_load llm t_id t_stamp,
  let w' := detecting w (detectSignals trending base t_load f llm t_id t_stamp) in
  (snd (fst (Daemon.runIteration st w' f)) = f /\
   snd (Daemon.runIteration st w' f) = []) \/
  (exists v a,
     Detector.canDeploy (Daemon.gateBalance w) f (Daemon.gateLoad w)
       (Daemon.gateHour w) (Daemon.gateMinutes w) = Returns v /\
     Detector.allowed v = true /\
     (fetchTrendingCasts trending ++ fetchBaseCasts base)%list <> [] /\
     llm = Analysed a /\
     analysisShouldDeploy a = true /\
     (7 <=? analysisStrength a)%float = true).
Proof.
  intros st w f trending base t_load llm t_id t_stamp w'. subst w'.
  unfold Daemon.runIteration, Daemon.iterationBody.
  cbn [detecting Daemon.gateBalance Daemon.gateLoad Daemon.gateHour
       Daemon.gateMinutes Daemon.detected].
  destruct (Detector.canDeploy _ f _ _ _) as [v|e] eqn:Hgate;
    cbn [Daemon.andThen Daemon.silent Daemon.finish Daemon.emit app];
    [|left; split; reflexivity].
  destruct (Detector.allowed v) eqn:Hallowed;
    cbn [negb Daemon.andThen Daemon.silent Daemon.finish Daemon.emit app];
    [|left; split; reflexivity].
  unfold detectSignals.
  destruct (fetchTrendingCasts trending ++ fetchBaseCasts base)%list
    as [|c rest] eqn:Hcasts; cbn [List.length Nat.eqb bind option_map];
    [left; split; reflexivity|].
  destruct (loadMemory t_load f) as [loaded|e]; cbn [bind];
    [|left; split; reflexivity].
  destruct (ledger_of loaded) as [memory|e]; cbn [bind];
    [|left; split; reflexivity].
  unfold analyzeSignalsWithLLM.
  destruct llm as [e| | | |a]; cbn [client bind];
    try (left; split; reflexivity);
    (destruct (promptCasts (c :: rest)) as [texts|e]; cbn [bind try_catch option_map];
     [|left; split; reflexivity]);
    try (left; split; reflexivity).
  cbn [read Daemon.shouldDeploy shouldDeploy].
  destruct (analysisShouldDeploy a) eqn:Hsd; cbn [andb negb];
    [|left; split; reflexivity].
  destruct (7 <=? analysisStrength a)%float eqn:Hstrength; cbn [negb];
    [|left; split; reflexivity].
  right. exists v, a. repeat split; try assumption; discriminate.
Qed.

End SignalsFacts.

(** ** The loop as a whole *)
Module LoopFacts.
Import Js ListFacts Deployments Lifecycle Report Daemon Loop.

Lemma runIteration_file : forall st w f st' f' events,
  runIteration st w f = (st', f', events) ->
  isRunning st' = isRunning st /\
  iterationCount st' = iterationCount st + 1 /\
  lastEngagementCheck st' = lastEngagementCheck st /\
  (f' = f \/
   exists config r,
     Deployer.deployContract config (deployBalance w) (submission w)
       (deployResultClock w) (deployLoad w) (deploySave w) f = Returns (f', r)).
Proof.
  intros st w f st' f' events H. unfold runIteration, iterationBody in H.
  destruct (Detector.canDeploy _ f _ _ _) as [v|e];
    cbn [andThen silent finish emit app] in H.
  2: { injection H as <- <- <-. repeat split. now left. }
  destruct (negb (Detector.allowed v));
    cbn [andThen silent finish emit app] in H.
  { injection H as <- <- <-. repeat split. now left. }
  destruct (detected w) as [[signal|]|e];
    cbn [andThen silent finish emit app] in H.
  2,3: injection H as <- <- <-; repeat split; now left.
  destruct (negb (shouldDeploy signal));
    cbn [andThen silent finish emit app] in H.
  { injection H as <- <- <-. repeat split. now left. }
  cbv zeta in H.
  destruct (Agent.selectContractType (narrative signal)).
  - destruct (clanker w) as [c|e];
      cbn [andThen silent finish emit app fst snd] in H;
      injection H as <- <- <-; repeat split; now left.
  - destruct (Deployer.deployContract _ _ _ _ _ _ f) as [[f2 r]|e] eqn:Hd;
      cbn [andThen silent finish emit app fst snd] in H;
      injection H as <- <- <-; repeat split;
      [right; eexists; exists r; exact Hd | now left].
  - destruct (Deployer.deployContract _ _ _ _ _ _ f) as [[f2 r]|e] eqn:Hd;
      cbn [andThen silent finish emit app fst snd] in H;
      injection H as <- <- <-; repeat split;
      [right; eexists; exists r; exact Hd | now left].
  - destruct (Deployer.deployContract _ _ _ _ _ _ f) as [[f2 r]|e] eqn:Hd;
      cbn [andThen silent finish emit app fst snd] in H;
      injection H as <- <- <-; repeat split;
      [right; eexists; exists r; exact Hd | now left].
Qed.

Lemma runEngagementCheck_file :
  forall st now observeAll t_all signer world observe t_candidates t_snapshot f
         st' f' events,
  runEngagementCheck st now observeAll t_all signer world observe
    t_candidates t_snapshot f = (st', f', events) ->
  isRunning st' = isRunning st /\
  iterationCount st' = iterationCount st /\
  extends 0 (recordsOf f) (recordsOf f') /\
  (reachable f -> f' = f /\ events = []).
Proof.
  intros st now observeAll t_all signer world observe t_candidates t_snapshot f
         st' f' events H.
  assert (Hsame : forall s, isRunning s = isRunning st ->
            iterationCount s = iterationCount st ->
            isRunning s = isRunning st /\ iterationCount s = iterationCount st /\
            extends 0 (recordsOf f) (recordsOf f) /\
            (reachable f -> f = f /\ @nil SunsetRun.Event = [])).
  { intros s Hs1 Hs2. split; [exact Hs1|]. split; [exact Hs2|].
    split; [apply SunsetFacts.extends_refl | auto]. }
  unfold runEngagementCheck in H.
  destruct (now - lastEngagementCheck st <? ENGAGEMENT_CHECK_INTERVAL_MS).
  { injection H as <- <- <-. now apply Hsame. }
  destruct (Tracker.analyzeAllDeployments observeAll t_all f) as [metrics|e];
    cbn [bind] in H.
  - destruct (SunsetRun.runSunsetAutomation signer world observe t_candidates
                t_snapshot f) as [[[f1 ev] results]|e] eqn:Hrun;
      injection H as <- <- <-.
    + destruct (SunsetRunFacts.runSunsetAutomation_keeps _ _ _ _ _ _ _ _ _ Hrun)
        as [Hext Hidle].
      split; [reflexivity|]. split; [reflexivity|]. split; [exact Hext | exact Hidle].
    + now apply Hsame.
  - injection H as <- <- <-. now apply Hsame.
Qed.

Lemma postPeriodicStatus_state :
  forall st now t_stats t_sunset t_now balance f st' posted,
  postPeriodicStatus st now t_stats t_sunset t_now balance f = (st', posted) ->
  isRunning st' = isRunning st /\ iterationCount st' = iterationCount st.
Proof.
  intros st now t_stats t_sunset t_now balance f st' posted H.
  unfold postPeriodicStatus in H.
  destruct (now - lastStatusUpdate st <? STATUS_UPDATE_INTERVAL_MS).
  { injection H as <- _. split; reflexivity. }
  destruct (bind _ _); injection H as <- _; split; reflexivity.
Qed.

Lemma retired_behind_new : forall config r a l,
  retired a (Deployer.recordOf config r :: l) -> retired a l.
Proof.
  intros config r a l [d [Hd Hs]]. unfold retired, firstWithAddress in *.
  cbn [find] in Hd.
  destruct (String.eqb (address (Deployer.recordOf config r)) a).
  - injection Hd as <-. discriminate Hs.
  - exists d. split; assumption.
Qed.

Lemma deploy_on_reachable : forall config balance tx t_result t_load t_save f f' r,
  reachable f ->
  Deployer.deployContract config balance tx t_result t_load t_save f = Returns (f', r) ->
  recordsOf f' = Deployer.recordOf config r :: recordsOf f.
Proof.
  intros config balance tx t_result t_load t_save f f' r Hr Hd.
  pose proof (LifecycleFacts.reachable_noneActive _ Hr) as Hn.
  destruct (LifecycleFacts.deployContract_success _ _ _ _ _ _ _ _ _ Hn Hd)
    as [m [Hm ->]].
  destruct f as [| |[text|m0|v]]; try contradiction.
  - injection Hm as <-. reflexivity.
  - injection Hm as <-. reflexivity.
Qed.

Lemma runPass_spec : forall st f p st' f' events,
  runPass st f p = (st', f', events) ->
  isRunning st' = isRunning st /\
  iterationCount st' = iterationCount st + 1 /\
  (exists k, (k <= 1)%nat /\ extends k (recordsOf f) (recordsOf f')) /\
  (reachable f ->
   reachable f' /\
   (forall e, ~ In (Check e) events) /\
   (forall a, retired a (recordsOf f') -> retired a (recordsOf f))).
Proof.
  intros st f p st' f' events H. unfold runPass in H.
  destruct (runIteration st (iteration p) f) as [[st1 f1] deployed] eqn:H1.
  destruct (runEngagementCheck st1 _ _ _ _ _ _ _ _ f1) as [[st2 f2] checked] eqn:H2.
  destruct (postPeriodicStatus st2 _ _ _ _ _ f2) as [st3 posted] eqn:H3.
  injection H as <- <- <-.
  destruct (runIteration_file _ _ _ _ _ _ H1) as [R1 [C1 [_ F1]]].
  destruct (runEngagementCheck_file _ _ _ _ _ _ _ _ _ _ _ _ _ H2)
    as [R2 [C2 [E2 I2]]].
  destruct (postPeriodicStatus_state _ _ _ _ _ _ _ _ _ H3) as [R3 C3].
  split; [congruence|]. split; [lia|]. split.
  - destruct F1 as [->|[config [r Hd]]].
    + exists 0%nat. split; [lia | exact E2].
    + destruct (SunsetFacts.step_extends f f1 (step_deploy _ _ _ _ _ _ _ _ _ Hd))
        as [k [Hk Hext]].
      exists k. split; [exact Hk|].
      exact (SunsetFacts.extends_trans _ _ _ _ _ Hext E2).
  - intros Hr.
    assert (Hr1 : reachable f1).
    { destruct F1 as [->|[config [r Hd]]]; [exact Hr|].
      exact (reach_deploy _ _ _ _ _ _ _ _ _ Hr Hd). }
    destruct (I2 Hr1) as [-> ->].
    split; [exact Hr1|]. split.
    + intros e Hin. cbn [map app] in Hin.
      apply in_app_or in Hin. destruct Hin as [Hin|Hin].
      * apply in_map_iff in Hin. destruct Hin as [x [Hx _]]. discriminate Hx.
      * destruct posted; [destruct Hin as [Hin|[]]; discriminate Hin | destruct Hin].
    + intros a Ha. destruct F1 as [->|[config [r Hd]]]; [exact Ha|].
      rewrite (deploy_on_reachable _ _ _ _ _ _ _ _ _ Hr Hd) in Ha.
      exact (retired_behind_new _ _ _ _ Ha).
Qed.

Lemma spaced_after : forall fired previous t,
  spaced previous fired -> In t fired ->
  previous + ENGAGEMENT_CHECK_INTERVAL_MS <= t.
Proof.
  induction fired as [|x fired IH]; intros previous t H Hin; [destruct Hin|].
  cbn [spaced] in H. destruct H as [Hx Hrest]. destruct Hin as [<-|Hin]; [lia|].
  pose proof (IH x t Hrest Hin). unfold ENGAGEMENT_CHECK_INTERVAL_MS in *. lia.
Qed.

Lemma runEngagementCheck_stamp :
  forall st now observeAll t_all signer world observe t_candidates t_snapshot f
         st' f' events,
  runEngagementCheck st now observeAll t_all signer world observe
    t_candidates t_snapshot f = (st', f', events) ->
  (now - lastEngagementCheck st < ENGAGEMENT_CHECK_INTERVAL_MS /\
   lastEngagementCheck st' = lastEngagementCheck st) \/
  (ENGAGEMENT_CHECK_INTERVAL_MS <= now - lastEngagementCheck st /\
   lastEngagementCheck st' = now).
Proof.
  intros st now observeAll t_all signer world observe t_candidates t_snapshot f
         st' f' events H.
  unfold runEngagementCheck in H.
  destruct (now - lastEngagementCheck st <? ENGAGEMENT_CHECK_INTERVAL_MS) eqn:Hdue.
  - apply Z.ltb_lt in Hdue. injection H as <- _ _. now left.
  - apply Z.ltb_ge in Hdue. right. split; [exact Hdue|].
    destruct (bind _ _) as [[[f1 ev] results]|e]; injection H as <- _ _; reflexivity.
Qed.

Lemma postPeriodicStatus_stamp :
  forall st now t_stats t_sunset t_now balance f st' posted,
  postPeriodicStatus st now t_stats t_sunset t_now balance f = (st', posted) ->
  lastEngagementCheck st' = lastEngagementCheck st.
Proof.
  intros st now t_stats t_sunset t_now balance f st' posted H.
  unfold postPeriodicStatus in H.
  destruct (now - lastStatusUpdate st <? STATUS_UPDATE_INTERVAL_MS).
  { injection H as <- _. reflexivity. }
  destruct (bind _ _); injection H as <- _; reflexivity.
Qed.

Lemma runPass_stamp : forall st f p st' f' events,
  runPass st f p = (st', f', events) ->
  (checkClock p - lastEngagementCheck st < ENGAGEMENT_CHECK_INTERVAL_MS /\
   lastEngagementCheck st' = lastEngagementCheck st) \/
  (ENGAGEMENT_CHECK_INTERVAL_MS <= checkClock p - lastEngagementCheck st /\
   lastEngagementCheck st' = checkClock p).
Proof.
  intros st f p st' f' events H. unfold runPass in H.
  destruct (runIteration st (iteration p) f) as [[st1 f1] deployed] eqn:H1.
  destruct (runEngagementCheck st1 _ _ _ _ _ _ _ _ f1) as [[st2 f2] checked] eqn:H2.
  destruct (postPeriodicStatus st2 _ _ _ _ _ f2) as [st3 posted] eqn:H3.
  injection H as <- <- <-.
  destruct (runIteration_file _ _ _ _ _ _ H1) as [_ [_ [S1 _]]].
  pose proof (runEngagementCheck_stamp _ _ _ _ _ _ _ _ _ _ _ _ _ H2) as S2.
  pose proof (postPeriodicStatus_stamp _ _ _ _ _ _ _ _ _ H3) as S3.
  rewrite S3, <- S1. exact S2.
Qed.

Lemma last_cons : forall (l : list State) a d, last (a :: l) d = last l a.
Proof.
  induction l as [|b l IH]; intros a d; [reflexivity|].
  change (last (b :: l) d = last (b :: l) a).
  rewrite (IH b d), (IH b a). reflexivity.
Qed.

Lemma history_runLoop : forall passes st f,
  isRunning st = true ->
  List.length (history st f passes) = List.length passes /\
  last (history st f passes) st = fst (fst (runLoop st f passes)).
Proof.
  induction passes as [|p rest IH]; intros st f Hrun; [split; reflexivity|].
  cbn [history runLoop]. rewrite Hrun.
  destruct (runPass st f p) as [[st1 f1] ev1] eqn:Hp.
  destruct (runPass_spec _ _ _ _ _ _ Hp) as [R1 _].
  destruct (IH st1 f1) as [Hlen Hlast]; [congruence|].
  destruct (runLoop st1 f1 rest) as [[st2 f2] later].
  cbn [List.length fst]. split; [now rewrite Hlen|].
  rewrite last_cons. exact Hlast.
Qed.

Lemma loop_stamps : forall passes st f,
  let stamps := map lastEngagementCheck (history st f passes) in
  scheduled (lastEngagementCheck st) (combine (map checkClock passes) stamps) /\
  spaced (lastEngagementCheck st) (checksMade (lastEngagementCheck st) stamps) /\
  (forall t, In t (checksMade (lastEngagementCheck st) stamps) ->
     exists p, In p passes /\ checkClock p = t).
Proof.
  induction passes as [|p rest IH]; intros st f; cbv zeta.
  - cbn. repeat split. intros t [].
  - cbn [history]. destruct (isRunning st).
    2: { cbn. repeat split. intros t []. }
    destruct (runPass st f p) as [[st1 f1] ev1] eqn:Hp.
    destruct (IH st1 f1) as [IH1 [IH2 IH3]]. cbv zeta in IH1, IH2, IH3.
    pose proof (runPass_stamp _ _ _ _ _ _ Hp) as Hs.
    cbn [map combine scheduled checksMade].
    split; [split; [exact Hs | exact IH1]|].
    destruct Hs as [[Hlt Heq]|[Hge Heq]].
    + rewrite Heq, Z.eqb_refl. rewrite Heq in IH2, IH3.
      split; [exact IH2|].
      intros t Ht. destruct (IH3 t Ht) as [q [Hq Hck]].
      exists q. split; [now right | exact Hck].
    + assert (Hne : (lastEngagementCheck st1 =? lastEngagementCheck st) = false).
      { apply Z.eqb_neq. unfold ENGAGEMENT_CHECK_INTERVAL_MS in Hge. lia. }
      rewrite Hne. cbn [spaced]. split.
      * split; [rewrite Heq; exact Hge | exact IH2].
      * intros t [<-|Ht].
        -- exists p. split; [now left | now symmetry].
        -- destruct (IH3 t Ht) as [q [Hq Hck]].
           exists q. split; [now right | exact Hck].
Qed.

(** X16. Along any run of the loop of [startDaemon], pass after pass, the
    engagement check leaves [lastEngagementCheck] as it is when its clock
    read is less than 30 minutes after the last check, and records the
    clock read otherwise, whatever the iteration, the analysis, the sunset
    run and the status update do. So the checks made are at least 30
    minutes apart, each at the clock read of one of the passes, and after
    the assignments of [startDaemon] none is made earlier than one minute
    after the clock read that set [lastEngagementCheck]. *)
Theorem engagement_checks_are_spaced :
  (forall passes st f,
     let after := history st f passes in
     let stamps := map lastEngagementCheck after in
     (isRunning st = true ->
      List.length after = List.length passes /\
      last after st = fst (fst (runLoop st f passes))) /\
     scheduled (lastEngagementCheck st) (combine (map checkClock passes) stamps) /\
     spaced (lastEngagementCheck st) (checksMade (lastEngagementCheck st) stamps) /\
     (forall t, In t (checksMade (lastEngagementCheck st) stamps) ->
        exists p, In p passes /\ checkClock p = t)) /\
  (forall st t_status t0 f passes t,
     let st0 := started st t_status t0 in
     In t (checksMade (lastEngagementCheck st0)
             (map lastEngagementCheck (history st0 f passes))) ->
     t0 + 60000 <= t).
Proof.
  split.
  - intros passes st f. cbv zeta.
    destruct (loop_stamps passes st f) as [H1 [H2 H3]]. cbv zeta in H1, H2, H3.
    split; [exact (history_runLoop passes st f)|].
    split; [exact H1|]. split; [exact H2 | exact H3].
  - intros st t_status t0 f passes t. cbv zeta. intros Hin.
    destruct (loop_stamps passes (started st t_status t0) f) as [_ [H2 _]].
    cbv zeta in H2.
    pose proof (spaced_after _ _ _ H2 Hin) as H.
    cbn [started lastEngagementCheck] in H. lia.
Qed.

(** X22. The loop of [startDaemon] over any number of passes: every pass
    counts one iteration, and no ledger record is ever deleted or
    reordered: each record of the file the loop started with is found in
    the final file behind the records deployed since (at most one per
    pass), with the same address, name and timestamp and with its retirement
    kept. *)
Theorem daemon_keeps_records : forall passes st f,
  exists st' f' events k,
    runLoop st f passes = (st', f', events) /\
    (k <= List.length passes)%nat /\
    extends k (recordsOf f) (recordsOf f') /\
    (isRunning st = true ->
     isRunning st' = true /\
     iterationCount st' = iterationCount st + Z.of_nat (List.length passes)) /\
    (isRunning st = false -> st' = st /\ f' = f /\ events = []).
Proof.
  induction passes as [|p rest IH]; intros st f.
  - exists st, f, [], 0%nat. cbn. split; [reflexivity|]. split; [lia|].
    split; [apply SunsetFacts.extends_refl|]. split; [intros ->; split; [reflexivity | lia] | auto].
  - cbn [runLoop]. destruct (isRunning st) eqn:Hrun.
    + destruct (runPass st f p) as [[st1 f1] ev1] eqn:Hp.
      destruct (runPass_spec _ _ _ _ _ _ Hp) as [R1 [C1 [[k1 [Hk1 E1]] _]]].
      destruct (IH st1 f1) as [st2 [f2 [ev2 [k2 [Hloop [Hk2 [E2 [Hon _]]]]]]]].
      rewrite Hloop.
      exists st2, f2, (ev1 ++ ev2)%list, (k2 + k1)%nat.
      split; [reflexivity|]. split; [cbn [List.length]; lia|].
      split; [exact (SunsetFacts.extends_trans _ _ _ _ _ E1 E2)|].
      split; [|intros H; discriminate H].
      intros _. destruct Hon as [R2 C2]; [congruence|].
      split; [exact R2|]. cbn [List.length]. lia.
    + exists st, f, [], 0%nat. split; [reflexivity|]. split; [lia|].
      split; [apply SunsetFacts.extends_refl|]. split; [intros H; discriminate H | auto].
Qed.

(** X23. Started on a store that deployments and retirements can reach
    (a missing file in particular), the loop never retires a contract: over
    any number of passes the engagement check produces no effect at all (no
    record marked, no sunset announced, no summary posted), the store stays
    reachable, and an address that is retired at the end was retired at the
    start. *)
Theorem daemon_never_retires : forall passes st f,
  reachable f ->
  exists st' f' events,
    runLoop st f passes = (st', f', events) /\
    reachable f' /\
    (forall e, ~ In (Check e) events) /\
    (forall a, retired a (recordsOf f') -> retired a (recordsOf f)).
Proof.
  induction passes as [|p rest IH]; intros st f Hr.
  - exists st, f, []. cbn. repeat split; auto.
  - cbn [runLoop]. destruct (isRunning st).
    + destruct (runPass st f p) as [[st1 f1] ev1] eqn:Hp.
      destruct (runPass_spec _ _ _ _ _ _ Hp) as [_ [_ [_ H1]]].
      destruct (H1 Hr) as [Hr1 [Hno1 Hret1]].
      destruct (IH st1 f1 Hr1) as [st2 [f2 [ev2 [Hloop [Hr2 [Hno2 Hret2]]]]]].
      rewrite Hloop. exists st2, f2, (ev1 ++ ev2)%list.
      split; [reflexivity|]. split; [exact Hr2|]. split.
      * intros e Hin. apply in_app_or in Hin.
        destruct Hin as [Hin|Hin]; [exact (Hno1 e Hin) | exact (Hno2 e Hin)].
      * intros a Ha. apply Hret1. now apply Hret2.
    + exists st, f, []. split; [reflexivity|]. repeat split; auto.
Qed.

(** A daemon started on a missing file that runs one pass with a mined
    deployment. *)
Lemma daemon_never_retires_witness :
  reachable Missing /\
  exists st' f' events,
    runLoop (started initial 0 0) Missing [samplePass] = (st', f', events) /\
    reachable f' /\
    (forall e, ~ In (Check e) events) /\
    (forall a, retired a (recordsOf f') -> retired a (recordsOf Missing)).
Proof.
  exact (conj reach_start
           (daemon_never_retires [samplePass] (started initial 0 0) Missing
              reach_start)).
Defined.

End LoopFacts.
